(** * jp_translation: the translation pipeline, embedded and verified

    A shallow embedding of the four modules that make up the pipeline of the
    Markdown translator:

    - [src/translation_service.py]  the footnote shielding transform and the
      one-document pipeline ([TranslationService]);
    - [src/api_client.py]           the gateway with its retry policy
      ([GeminiAPIClient.translate_text]);
    - [src/orchestrator.py]         the batch loop ([TranslationOrchestrator]);
    - [main.py]                     the exit code.

    Conventions of the embedding.

    - A Python [str] is a list of characters ([pystr]); a character is a code
      point below 256 ([ascii]), with Python's own notion of white space and
      of lower-casing on that range.
    - A Python exception is a class tag and a message; [str(e)] is the
      message.  Only [Exception] and its subclasses are modelled
      ([KeyboardInterrupt] is the interruption of the process, not a failure
      of a step).
    - Effects are explicit: every effectful operation takes the world and
      returns a result and the next world.  The world holds the state of the
      remote service, the state of the file system, and a trace of the
      gateway's calls and sleeps.  [print] is not modelled.
    - Durations are rationals.  [retry_delay * 2 ** attempt] multiplies by a
      power of two, which binary floating point does exactly (overflow
      apart), so the rational product is the value Python computes.  The
      product and [time.sleep] raise on some numbers; the statements that
      depend on a wait being slept are made for the others
      ([valid_backoff], [valid_rate_limit_wait]). *)

From Stdlib Require Import Ascii String DecimalString DecimalNat.
From Stdlib Require Import List Bool Arith Lia ZArith QArith.
Import ListNotations.

Set Implicit Arguments.
Local Open Scope list_scope.
Local Open Scope nat_scope.

(** ** Python strings *)

Module Py.

Definition pystr := list ascii.

(** A literal. *)
Definition str (s : string) : pystr := list_ascii_of_string s.
Arguments str s%_string.

Definition LF : ascii := ascii_of_nat 10.
Definition TAB : ascii := ascii_of_nat 9.

Definition eqc (a b : ascii) : bool := Ascii.eqb a b.

(** [str.isspace] of one character, for code points below 256:
    TAB, LF, VT, FF, CR, FS, GS, RS, US, space, NEL and NBSP. *)
Definition is_space (c : ascii) : bool :=
  let n := nat_of_ascii c in
  ((9 <=? n) && (n <=? 13)) || ((28 <=? n) && (n <=? 32))
  || (n =? 133) || (n =? 160).

(** [str.lower] of one character, for code points below 256: the letters
    A-Z, and the Latin-1 capitals 192-222 without the sign 215. *)
Definition lower_char (c : ascii) : ascii :=
  let n := nat_of_ascii c in
  if ((65 <=? n) && (n <=? 90))
     || ((192 <=? n) && (n <=? 222) && negb (n =? 215))
  then ascii_of_nat (n + 32) else c.

(** [s.lower()] *)
Definition lower (s : pystr) : pystr := map lower_char s.

(** [s.lstrip()], [s.rstrip()], [s.strip()] *)
Fixpoint lstrip (s : pystr) : pystr :=
  match s with
  | [] => []
  | c :: s' => if is_space c then lstrip s' else s
  end.

Definition rstrip (s : pystr) : pystr := rev (lstrip (rev s)).

Definition strip (s : pystr) : pystr := rstrip (lstrip s).

(** [bool(s)]: a string is true when it is not empty. *)
Definition truthy (s : pystr) : bool :=
  match s with [] => false | _ :: _ => true end.

(** [s.startswith(p)] *)
Fixpoint startswith (p s : pystr) : bool :=
  match p, s with
  | [], _ => true
  | _ :: _, [] => false
  | a :: p', b :: s' => eqc a b && startswith p' s'
  end.

(** [p in s] *)
Fixpoint contains (p s : pystr) : bool :=
  startswith p s ||
  match s with
  | [] => false
  | _ :: s' => contains p s'
  end.

(** [s.split('\n')] *)
Fixpoint split_lines (s : pystr) : list pystr :=
  match s with
  | [] => [[]]
  | c :: s' =>
      if eqc c LF then [] :: split_lines s'
      else match split_lines s' with
           | l :: ls => (c :: l) :: ls
           | [] => [[c]]
           end
  end.

(** ['\n'.join(lines)] *)
Fixpoint join_lines (lines : list pystr) : pystr :=
  match lines with
  | [] => []
  | [l] => l
  | l :: ls => l ++ LF :: join_lines ls
  end.

(** [s.replace(old, new)]: the occurrences of [old] are found from the left
    and do not overlap.  [skip] counts the characters of a match that are
    still to be dropped.  With an empty [old] Python puts [new] before every
    character and at the end. *)
Fixpoint replace_from (old new : pystr) (skip : nat) (s : pystr) : pystr :=
  match s with
  | [] => []
  | c :: s' =>
      match skip with
      | S k => replace_from old new k s'
      | O =>
          if startswith old s
          then new ++ replace_from old new (length old - 1) s'
          else c :: replace_from old new 0 s'
      end
  end.

Fixpoint intersperse (new s : pystr) : pystr :=
  match s with
  | [] => new
  | c :: s' => new ++ c :: intersperse new s'
  end.

Definition replace (old new s : pystr) : pystr :=
  match old with
  | [] => intersperse new s
  | _ :: _ => replace_from old new 0 s
  end.

(** [str(n)] for a natural number: its decimal digits. *)
Definition str_of_nat (n : nat) : pystr :=
  list_ascii_of_string (NilEmpty.string_of_uint (Nat.to_uint n)).

End Py.
Import Py.

(** ** Exceptions and results *)

(** The exception classes that the program raises or catches.  [Exception_]
    stands for [Exception] itself and for every class outside this project
    that needs no name of its own here. *)
Inductive exn_class : Type :=
| Exception_
| ValueError
| OSError            (* IOError is an alias of OSError *)
| TranslatorError
| TranslationError
| APIError
| RateLimitError
| FileSystemError.

(** [issubclass(c, d)], from [src/exceptions.py]. *)
Definition issubclass (c d : exn_class) : bool :=
  match d, c with
  | Exception_, _ => true
  | ValueError, ValueError => true
  | OSError, OSError => true
  | TranslatorError,
    (TranslatorError | TranslationError | APIError | RateLimitError
     | FileSystemError) => true
  | TranslationError, TranslationError => true
  | APIError, (APIError | RateLimitError) => true
  | RateLimitError, RateLimitError => true
  | FileSystemError, FileSystemError => true
  | _, _ => false
  end.

Record exn : Type := Exn { class_of : exn_class; message : pystr }.

Definition isinstance (e : exn) (c : exn_class) : bool :=
  issubclass (class_of e) c.

(** The outcome of a call: a value, or an exception. *)
Inductive result (A : Type) : Type :=
| Return (a : A)
| Raise (e : exn).
Arguments Raise {A} e.

(** ** The Markdown shielding transform ([src/translation_service.py]) *)

Module Shield.

(** The rest of a definition line after its ["]:"], against [\s*.+$]:
    [.] is any character but a line feed, and [$] is the end of the string
    or the place before a line feed that ends it. *)
Fixpoint dot_star_end (t : pystr) : bool :=
  match t with
  | [] => true
  | c :: t' =>
      if eqc c LF then match t' with [] => true | _ :: _ => false end
      else dot_star_end t'
  end.

Definition dot_plus_end (t : pystr) : bool :=
  match t with
  | [] => false
  | c :: t' => negb (eqc c LF) && dot_star_end t'
  end.

Fixpoint spaces_dot_plus_end (t : pystr) : bool :=
  dot_plus_end t ||
  match t with
  | [] => false
  | c :: t' => is_space c && spaces_dot_plus_end t'
  end.

(** The identifier against [[^\]]+] and what follows it. *)
Fixpoint after_id (seen : bool) (t : pystr) : bool :=
  match t with
  | [] => false
  | c :: t' =>
      if eqc c "]"
      then seen && match t' with
                   | d :: t'' => eqc d ":" && spaces_dot_plus_end t''
                   | [] => false
                   end
      else after_id true t'
  end.

(** [re.match(footnote_def_pattern, s)] with
    [footnote_def_pattern = r'^\[\^[^\]]+\]:\s*.+$']. *)
Definition footnote_def_match (s : pystr) : bool :=
  match s with
  | a :: b :: t => eqc a "[" && eqc b "^" && after_id false t
  | _ => false
  end.

(** [f"__FOOTNOTE_{i}__"] *)
Definition placeholder (i : nat) : pystr :=
  str "__FOOTNOTE_" ++ str_of_nat i ++ str "__".

(** The inner [while]: the lines after a definition line that belong to the
    same footnote, and the lines that remain. *)
Fixpoint collect_continuation (lines : list pystr) : list pystr * list pystr :=
  match lines with
  | [] => ([], [])
  | next_line :: rest =>
      if negb (truthy (strip next_line)) then ([], lines)
      else if footnote_def_match (strip next_line) then ([], lines)
      else if startswith (str "    ") next_line || startswith [TAB] next_line
      then let (more, remaining) := collect_continuation rest in
           (next_line :: more, remaining)
      else ([], lines)
  end.

(** The outer [while i < len(lines)].  [lines] is what lies at and after
    index [i]; every turn moves [i] forward, so [len(lines)] turns are
    enough, and that is the fuel [preprocess_markdown] gives. *)
Fixpoint preprocess_loop (fuel : nat) (lines processed_lines footnotes : list pystr)
  : list pystr * list pystr :=
  match fuel with
  | O => (processed_lines, footnotes)
  | S fuel' =>
      match lines with
      | [] => (processed_lines, footnotes)
      | line :: rest =>
          if footnote_def_match (strip line) then
            let (more, remaining) := collect_continuation rest in
            let footnote_lines := line :: more in
            let footnote_text := join_lines footnote_lines in
            let footnotes' := footnotes ++ [footnote_text] in
            let placeholder := placeholder (length footnotes' - 1) in
            preprocess_loop fuel' remaining (processed_lines ++ [placeholder])
              footnotes'
          else
            preprocess_loop fuel' rest (processed_lines ++ [line]) footnotes
      end
  end.

Definition preprocess_markdown (content : pystr) : pystr * list pystr :=
  let lines := split_lines content in
  let (processed_lines, footnotes) :=
    preprocess_loop (length lines) lines [] [] in
  (join_lines processed_lines, footnotes).

(** [for i, footnote in enumerate(footnotes)], from index [i] on. *)
Fixpoint restore_from (i : nat) (footnotes : list pystr) (result : pystr) : pystr :=
  match footnotes with
  | [] => result
  | footnote :: rest =>
      restore_from (S i) rest (replace (placeholder i) footnote result)
  end.

Definition postprocess_markdown (translated_content : pystr)
  (footnotes : list pystr) : pystr :=
  match footnotes with
  | [] => translated_content
  | _ :: _ => restore_from 0 footnotes translated_content
  end.

End Shield.

(** ** The world *)

Section Program.

(** The state of the remote service and the state of the file system. *)
Variables R F : Type.

Inductive event : Type :=
| GenerateContent (model contents : pystr)
| Sleep (seconds : Q).

Record world : Type := World {
  remote : R;
  files : F;
  trace : list event
}.

(** ** The gateway ([src/api_client.py]) *)

(** [response.text] may be absent. *)
Record response : Type := Response { text : option pystr }.

(** What a call of [client.models.generate_content] does: it returns a
    response (or none), or it raises.  The client is a library of its own
    and raises its own exception classes, not one of this project; of such
    an exception the program reads [str(e)] only. *)
Inductive reply : Type :=
| Responds (r : option response)
| Fails (msg : pystr).

Variable generate_content : pystr -> pystr -> R -> reply * R.

Record GeminiAPIClient : Type := Client {
  model_name : pystr;
  max_retries : nat;
  retry_delay : Q;
  rate_limit_wait : Q
}.

(** [time.sleep(seconds)], for a wait that it takes: it raises on a wait
    below zero and on one too long for the timer of the platform, which
    [sleepable] below rules out where a statement depends on the wait. *)
Definition sleep (seconds : Q) (w : world) : world :=
  World (remote w) (files w) (trace w ++ [Sleep seconds]).

Definition call_generate_content (model contents : pystr) (w : world)
  : reply * world :=
  let (rep, r) := generate_content model contents (remote w) in
  (rep, World r (files w) (trace w ++ [GenerateContent model contents])).

(** The body of the [try]: the call, the test of the response, the strip. *)
Definition try_body (c : GeminiAPIClient) (prompt : pystr) (w : world)
  : result pystr * world :=
  let (rep, w1) := call_generate_content (model_name c) prompt w in
  match rep with
  | Fails msg => (Raise (Exn Exception_ msg), w1)
  | Responds None =>
      (Raise (Exn APIError (str "API returned empty response")), w1)
  | Responds (Some r) =>
      match text r with
      | None => (Raise (Exn APIError (str "API returned empty response")), w1)
      | Some t =>
          if truthy t then (Return (strip t), w1)
          else (Raise (Exn APIError (str "API returned empty response")), w1)
      end
  end.

(** What an [except] clause ends in: a sleep and the next attempt, or a
    raise. *)
Inductive decision : Type :=
| Retry (wait : Q) (last_exception : exn)
| GiveUp (e : exn).

(** [if attempt < self.max_retries - 1: time.sleep(wait) else: raise e] *)
Definition sleep_or_raise (c : GeminiAPIClient) (attempt : nat) (wait : Q)
  (e : exn) : decision :=
  if attempt <? max_retries c - 1 then Retry wait e else GiveUp e.

(** [self.retry_delay * (2 ** attempt)], for an attempt below 1024: from
    there on [2 ** attempt] is beyond the floats and the product raises,
    which [valid_backoff] below rules out where a statement depends on the
    wait. *)
Definition backoff (c : GeminiAPIClient) (attempt : nat) : Q :=
  (retry_delay c * inject_Z (2 ^ Z.of_nat attempt))%Q.

(** The three [except] clauses, in their order. *)
Definition except_clauses (c : GeminiAPIClient) (attempt : nat) (e : exn)
  : decision :=
  if isinstance e RateLimitError then
    sleep_or_raise c attempt (rate_limit_wait c) e
  else if isinstance e APIError then
    sleep_or_raise c attempt (backoff c attempt) e
  else
    let error_message := lower (message e) in
    if contains (str "quota") error_message
       || contains (str "rate limit") error_message
       || contains (str "429") error_message
    then
      sleep_or_raise c attempt (rate_limit_wait c)
        (Exn RateLimitError (str "API rate limit reached: " ++ message e))
    else if contains (str "resource exhausted") error_message
            || contains (str "resource_exhausted") error_message
    then
      sleep_or_raise c attempt (rate_limit_wait c)
        (Exn RateLimitError (str "API rate limit reached: " ++ message e))
    else
      sleep_or_raise c attempt (backoff c attempt)
        (Exn APIError (str "API call failed: " ++ message e)).

(** [for attempt in range(self.max_retries)], and the lines after it. *)
Fixpoint retry_loop (c : GeminiAPIClient) (prompt : pystr)
  (attempts : list nat) (last_exception : option exn) (w : world)
  : result pystr * world :=
  match attempts with
  | [] =>
      match last_exception with
      | Some e => (Raise e, w)
      | None =>
          (Raise (Exn APIError (str "Translation failed after all retries")), w)
      end
  | attempt :: rest =>
      let (r, w1) := try_body c prompt w in
      match r with
      | Return t => (Return t, w1)
      | Raise e =>
          match except_clauses c attempt e with
          | Retry wait last => retry_loop c prompt rest (Some last) (sleep wait w1)
          | GiveUp e' => (Raise e', w1)
          end
      end
  end.

Definition make_prompt (text target_language : pystr) : pystr :=
  str "Translate the following text to " ++ target_language
  ++ str ". Preserve all Markdown formatting exactly as it appears. Only return the translated text without any additional explanation:"
  ++ [LF; LF] ++ text.

(** [not text or not text.strip()] *)
Definition blank (text : pystr) : bool :=
  negb (truthy text) || negb (truthy (strip text)).

Definition translate_text (c : GeminiAPIClient) (text target_language : pystr)
  (w : world) : result pystr * world :=
  if blank text then (Return text, w)
  else retry_loop c (make_prompt text target_language)
         (seq 0 (max_retries c)) None w.

(** ** The pipeline ([TranslationService]) and the batch ([src/orchestrator.py]) *)

(** A path below the source directory, as its components.  The files of a
    batch come from [source_dir.rglob], so each of them is relative to the
    source directory. *)
Definition path := list pystr.

Record TranslationResult : Type := Result {
  source_file : path;
  success : bool;
  error_message : option pystr
}.

Section Services.

(** The [translate_text] of the injected API client, and the three
    operations of the injected file service that touch the disk. *)
Variable client_translate_text : pystr -> pystr -> world -> result pystr * world.
Variable find_markdown_files : F -> result (list path).
Variable read_file : path -> F -> result pystr.
Variable write_file : path -> pystr -> F -> result unit * F.

Definition translate_markdown (content : pystr) (w : world)
  : result pystr * world :=
  if blank content then (Return content, w)
  else
    let (processed_content, footnotes) := Shield.preprocess_markdown content in
    match client_translate_text processed_content (str "Japanese") w with
    | (Return translated_content, w1) =>
        (Return (Shield.postprocess_markdown translated_content footnotes), w1)
    | (Raise e, w1) =>
        (Raise (Exn TranslationError
                  (str "Failed to translate markdown: " ++ message e)), w1)
    end.

(** [s.rfind(c)] *)
Fixpoint rfind (c : ascii) (s : pystr) : option nat :=
  match s with
  | [] => None
  | a :: s' =>
      match rfind c s' with
      | Some i => Some (S i)
      | None => if eqc a c then Some 0 else None
      end
  end.

(** [Path.name] and [Path.stem] of pathlib. *)
Definition name (p : path) : pystr := last p [].

Definition stem (p : path) : pystr :=
  match rfind "." (name p) with
  | Some i =>
      if (0 <? i) && (i <? length (name p) - 1) then firstn i (name p)
      else name p
  | None => name p
  end.

(** [Path.parent] *)
Definition parent (p : path) : path := removelast p.

(** [FileSystemService.create_output_path]:
    [source_dir / output_dir_name / relative_path]. *)
Definition create_output_path (source_file : path) (output_dir_name : pystr)
  : path :=
  output_dir_name :: source_file.

Definition do_read (p : path) (w : world) : result pystr * world :=
  (read_file p (files w), w).

Definition do_write (p : path) (content : pystr) (w : world)
  : result unit * world :=
  let (r, f) := write_file p content (files w) in
  (r, World (remote w) f (trace w)).

Definition failed (source_file : path) (e : exn) : TranslationResult :=
  Result source_file false (Some (message e)).

(** The inner [try] of [_translate_single_file]: the name of the output. *)
Definition translate_stem (original_stem : pystr) (w : world) : pystr * world :=
  match client_translate_text original_stem (str "Japanese") w with
  | (Return translated_stem, w1) =>
      (replace (str ":") (str "_")
         (replace (str "\") (str "_")
            (replace (str "/") (str "_") translated_stem)), w1)
  | (Raise _, w1) => (original_stem, w1)
  end.

Definition _translate_single_file (source_file : path)
  (output_dir_name : pystr) (w : world) : TranslationResult * world :=
  match do_read source_file w with
  | (Raise e, w1) => (failed source_file e, w1)
  | (Return content, w1) =>
      match translate_markdown content w1 with
      | (Raise e, w2) => (failed source_file e, w2)
      | (Return translated_content, w2) =>
          let original_stem := stem source_file in
          let (translated_stem, w3) := translate_stem original_stem w2 in
          let output_path := create_output_path source_file output_dir_name in
          let output_path := parent output_path ++ [translated_stem ++ str ".md"] in
          match do_write output_path translated_content w3 with
          | (Raise e, w4) => (failed source_file e, w4)
          | (Return _, w4) => (Result source_file true None, w4)
          end
      end
  end.

(** [for source_file in markdown_files: results.append(...)] *)
Fixpoint translate_files (markdown_files : list path) (output_dir_name : pystr)
  (results : list TranslationResult) (w : world)
  : list TranslationResult * world :=
  match markdown_files with
  | [] => (results, w)
  | source_file :: rest =>
      let (result, w1) := _translate_single_file source_file output_dir_name w in
      translate_files rest output_dir_name (results ++ [result]) w1
  end.

Definition translate_directory (output_dir_name : pystr) (w : world)
  : list TranslationResult * world :=
  let results := [] in
  match find_markdown_files (files w) with
  | Raise _ => (results, w)
  | Return markdown_files =>
      match markdown_files with
      | [] => (results, w)
      | _ :: _ => translate_files markdown_files output_dir_name results w
      end
  end.

End Services.

(** ** The entry point ([main.py]) *)

Section Main.

Variable find_markdown_files : F -> result (list path).
Variable read_file : path -> F -> result pystr.
Variable write_file : path -> pystr -> F -> result unit * F.

(** What [main] asks of its surroundings before the batch: whether the
    directory of the command line is valid, the key of the [.env] file, and
    whether the client library accepts the key. *)
Variable validate_directory : F -> result unit.
Variable load_api_key_from_env : F -> result pystr.
Variable genai_Client : pystr -> result unit.

(** [GeminiAPIClient.__init__], with a model name that is not empty, as
    [main] gives it; for an empty one the code asks the environment. *)
Definition GeminiAPIClient_init (api_key model : pystr) (retries : nat)
  (delay wait : Q) : result GeminiAPIClient :=
  if blank api_key
  then Raise (Exn ValueError (str "API key must be a non-empty string"))
  else
    match genai_Client (strip api_key) with
    | Raise e =>
        Raise (Exn ValueError
                 (str "Failed to initialize Gemini API client: " ++ message e))
    | Return _ => Return (Client model retries delay wait)
    end.

(** The lines of [main] after the batch. *)
Definition exit_code (results : list TranslationResult) : nat :=
  match results with
  | [] => 0
  | _ :: _ =>
      let failed_count := length (filter (fun r => negb (success r)) results) in
      if 0 <? failed_count then 1 else 0
  end.

Definition main (w : world) : nat * world :=
  match validate_directory (files w) with
  | Raise _ => (1, w)
  | Return _ =>
      match load_api_key_from_env (files w) with
      | Raise _ => (1, w)
      | Return api_key =>
          match GeminiAPIClient_init api_key (str "gemini-3-flash-preview")
                  3 1 60 with
          | Raise _ => (1, w)
          | Return api_client =>
              let (results, w1) :=
                translate_directory (translate_text api_client)
                  find_markdown_files read_file write_file (str "jp") w in
              (exit_code results, w1)
          end
      end
  end.

End Main.

End Program.

(** ** What the transform computes, as a relation

    [shielded n lines processed footnotes]: [processed] is [lines] with
    blocks of one or more lines replaced, from left to right, by the
    placeholders of the indices [n], [n+1], ..., and [footnotes] are the
    texts of these blocks in that order. *)
Inductive shielded : nat -> list pystr -> list pystr -> list pystr -> Prop :=
| shielded_nil n : shielded n [] [] []
| shielded_line n line lines processed footnotes :
    shielded n lines processed footnotes ->
    shielded n (line :: lines) (line :: processed) footnotes
| shielded_block n block lines processed footnotes :
    block <> [] ->
    shielded (S n) lines processed footnotes ->
    shielded n (block ++ lines) (Shield.placeholder n :: processed)
      (join_lines block :: footnotes).

Definition is_digit (c : ascii) : bool :=
  (48 <=? nat_of_ascii c) && (nat_of_ascii c <=? 57).

(** ** Words for the statements about the gateway *)

(** [needle] occurs in [msg], letter case apart. *)
Definition mentions (needle msg : pystr) : bool :=
  contains (lower needle) (lower msg).

(** The message of a failure tells of a limit of rate or of quota. *)
Definition rate_limit_message (msg : pystr) : bool :=
  mentions (str "quota") msg
  || mentions (str "rate limit") msg
  || mentions (str "429") msg
  || mentions (str "resource exhausted") msg
  || mentions (str "resource_exhausted") msg.

(** A call that returned, but with no response or no text in it. *)
Definition empty_response (rep : reply) : bool :=
  match rep with
  | Responds None => true
  | Responds (Some r) =>
      match text r with
      | None => true
      | Some t => negb (truthy t)
      end
  | Fails _ => false
  end.

(** A failure that is not one of rate: a raise with another message, or an
    empty response. *)
Definition generic_failure (rep : reply) : bool :=
  match rep with
  | Fails msg => negb (rate_limit_message msg)
  | Responds _ => empty_response rep
  end.

Definition rate_limit_failure (rep : reply) : bool :=
  match rep with
  | Fails msg => rate_limit_message msg
  | Responds _ => false
  end.

(** The exception that the gateway keeps for a failed call. *)
Definition kept_exception (rep : reply) : exn :=
  match rep with
  | Fails msg =>
      if rate_limit_message msg
      then Exn RateLimitError (str "API rate limit reached: " ++ msg)
      else Exn APIError (str "API call failed: " ++ msg)
  | Responds _ => Exn APIError (str "API returned empty response")
  end.

Definition is_call (e : event) : bool :=
  match e with GenerateContent _ _ => true | Sleep _ => false end.

(** The number of calls of the remote service in a trace. *)
Definition calls (t : list event) : nat := length (filter is_call t).

Definition is_failure (rep : reply) : bool :=
  generic_failure rep || rate_limit_failure rep.

(** The wait after a failed attempt that is not the last one. *)
Definition wait_after (c : GeminiAPIClient) (attempt : nat) (rep : reply) : Q :=
  if rate_limit_failure rep then rate_limit_wait c
  else (retry_delay c * inject_Z (2 ^ Z.of_nat attempt))%Q.

(** The trace of failed attempts, from the attempt [attempt] on, each one
    followed by its wait. *)
Fixpoint failed_attempts (c : GeminiAPIClient) (prompt : pystr) (attempt : nat)
  (reps : list reply) : list event :=
  match reps with
  | [] => []
  | rep :: reps' =>
      GenerateContent (model_name c) prompt
      :: Sleep (wait_after c attempt rep)
      :: failed_attempts c prompt (S attempt) reps'
  end.

(** ** The waits that the gateway can sleep

    [time.sleep] raises on a wait below zero ([ValueError]) and on one too
    long for the timer of the platform ([OverflowError]: beyond 2 ** 63
    nanoseconds, and on some platforms beyond 2 ** 32 milliseconds, some
    4.29e6 seconds), and the product [self.retry_delay * (2 ** attempt)]
    raises once [2 ** attempt] is beyond the floats, from the attempt 1024
    on.  Both stand in the [except] clauses, where nothing catches what they
    raise, while [sleep] and [backoff] always return.  The statements about
    a run that waits are made for the waits below, for which the code
    returns as well: from zero to a million seconds, after an attempt below
    1024. *)
Definition sleepable (seconds : Q) : bool :=
  Qle_bool 0 seconds && Qle_bool seconds 1000000.

(** Every back-off that the loop can ask for can be computed and slept. *)
Definition valid_backoff (c : GeminiAPIClient) : bool :=
  forallb (fun attempt => (attempt <? 1024) && sleepable (backoff c attempt))
    (seq 0 (max_retries c - 1)).

(** The fixed wait can be slept, where the budget leaves room for a wait. *)
Definition valid_rate_limit_wait (c : GeminiAPIClient) : bool :=
  (max_retries c <=? 1) || sleepable (rate_limit_wait c).

Definition valid_waits (c : GeminiAPIClient) : bool :=
  valid_backoff c && valid_rate_limit_wait c.

Section Remote.

Variables R : Type.
Variable generate_content : pystr -> pystr -> R -> reply * R.

(** [replies model contents r reps r']: from the state [r], successive calls
    of the remote service are answered by [reps], and leave it in [r']. *)
Inductive replies (model contents : pystr) : R -> list reply -> R -> Prop :=
| replies_nil r : replies model contents r [] r
| replies_cons r rep r1 reps r' :
    generate_content model contents r = (rep, r1) ->
    replies model contents r1 reps r' ->
    replies model contents r (rep :: reps) r'.

End Remote.

(** A remote service that answers from a script, one reply a call. *)
Definition scripted (model contents : pystr) (script : list reply)
  : reply * list reply :=
  match script with
  | [] => (Fails (str "no reply left"), [])
  | rep :: rest => (rep, rest)
  end.

(** The client that [main] builds, and a world with a scripted remote
    service and no file system. *)
Definition main_client : GeminiAPIClient :=
  Client (str "gemini-3-flash-preview") 3 1 60.

Definition scripted_world (script : list reply) : world (list reply) unit :=
  World script tt [].

Definition answers (t : pystr) : reply := Responds (Some (Response (Some t))).

(** A client whose [translate_text] raises at every call. *)
Definition refusing_translate_text (text target_language : pystr)
  (w : world (list reply) unit) : result pystr * world (list reply) unit :=
  (Raise (Exn Exception_ (str "API error")), w).

(** The content of the README example. *)
Definition hello_content : pystr :=
  str "# Hello" ++ [LF; LF] ++ str "Body[^1]." ++ [LF; LF] ++ str "[^1]: Note.".

(** A content with a footnote definition and, before it, a line that reads
    like the placeholder of that footnote. *)
Definition clash_content : pystr :=
  str "__FOOTNOTE_0__" ++ [LF] ++ str "[^1]: Note.".

(** ** Words for the statements about the batch *)

Section Outcome.

Variables R F : Type.
Variable client_translate_text :
  pystr -> pystr -> world R F -> result pystr * world R F.
Variable read_file : path -> F -> result pystr.
Variable write_file : path -> pystr -> F -> result unit * F.
Variable output_dir_name : pystr.

(** [outcome f w r]: what became of the document [f], taken up in the world
    [w]: one of its three steps raised and [r] records the failure with its
    message, or none did and [r] records the success. *)
Inductive outcome (f : path) (w : world R F) : TranslationResult -> Prop :=
| read_raised e :
    read_file f (files w) = Raise e ->
    outcome f w (Result f false (Some (message e)))
| translation_raised content e w1 :
    read_file f (files w) = Return content ->
    translate_markdown client_translate_text content w = (Raise e, w1) ->
    outcome f w (Result f false (Some (message e)))
| write_raised content translated w1 base w2 e fs :
    read_file f (files w) = Return content ->
    translate_markdown client_translate_text content w
    = (Return translated, w1) ->
    translate_stem client_translate_text (stem f) w1 = (base, w2) ->
    write_file
      (parent (create_output_path f output_dir_name) ++ [base ++ str ".md"])
      translated (files w2) = (Raise e, fs) ->
    outcome f w (Result f false (Some (message e)))
| all_succeeded content translated w1 base w2 u fs :
    read_file f (files w) = Return content ->
    translate_markdown client_translate_text content w
    = (Return translated, w1) ->
    translate_stem client_translate_text (stem f) w1 = (base, w2) ->
    write_file
      (parent (create_output_path f output_dir_name) ++ [base ++ str ".md"])
      translated (files w2) = (Return u, fs) ->
    outcome f w (Result f true None).

End Outcome.

(** A name in which every '/', '\' and ':' has become '_'. *)
Definition unsafe_char (ch : ascii) : bool :=
  eqc ch "/" || eqc ch "\" || eqc ch ":".

Definition sanitized (base : pystr) : pystr :=
  map (fun ch => if unsafe_char ch then "_"%char else ch) base.

(** ** A file system in memory and a translator stub, for the examples *)

Module Mem.

(** The files below the source directory, with their contents. *)
Definition fs := list (path * pystr).

Fixpoint str_eqb (a b : pystr) : bool :=
  match a, b with
  | [], [] => true
  | x :: a', y :: b' => eqc x y && str_eqb a' b'
  | _, _ => false
  end.

Fixpoint path_eqb (p q : path) : bool :=
  match p, q with
  | [], [] => true
  | x :: p', y :: q' => str_eqb x y && path_eqb p' q'
  | _, _ => false
  end.

(** The order of strings, by code points, and of paths, by components. *)
Fixpoint str_leb (a b : pystr) : bool :=
  match a, b with
  | [], _ => true
  | _ :: _, [] => false
  | x :: a', y :: b' =>
      if eqc x y then str_leb a' b'
      else nat_of_ascii x <? nat_of_ascii y
  end.

Fixpoint path_leb (p q : path) : bool :=
  match p, q with
  | [], _ => true
  | _ :: _, [] => false
  | x :: p', y :: q' =>
      if str_eqb x y then path_leb p' q' else str_leb x y
  end.

Fixpoint insert_sorted (p : path) (ps : list path) : list path :=
  match ps with
  | [] => [p]
  | q :: ps' => if path_leb p q then p :: ps else q :: insert_sorted p ps'
  end.

Definition sorted (ps : list path) : list path :=
  fold_right insert_sorted [] ps.

Definition endswith (suffix s : pystr) : bool :=
  startswith (rev suffix) (rev s).

(** [sorted(directory.rglob("*.md"))], on a disk of files only: it has no
    directory for [rglob] to yield. *)
Definition find_markdown_files (f : fs) : result (list path) :=
  Return (sorted (filter (fun p => endswith (str ".md") (last p []))
                    (map fst f))).

Fixpoint lookup (p : path) (f : fs) : option pystr :=
  match f with
  | [] => None
  | (q, content) :: f' => if path_eqb p q then Some content else lookup p f'
  end.

Definition read_file (p : path) (f : fs) : result pystr :=
  match lookup p f with
  | Some content => Return content
  | None => Raise (Exn OSError (str "File does not exist"))
  end.

Fixpoint store (p : path) (content : pystr) (f : fs) : fs :=
  match f with
  | [] => [(p, content)]
  | (q, old) :: f' =>
      if path_eqb p q then (q, content) :: f'
      else (q, old) :: store p content f'
  end.

Definition write_file (p : path) (content : pystr) (f : fs)
  : result unit * fs :=
  (Return tt, store p content f).

(** A client whose [translate_text] returns ["[T] " + text]; the state of
    the remote side is the list of the texts it was called with. *)
Definition stub_translate_text (text target_language : pystr)
  (w : world (list pystr) fs) : result pystr * world (list pystr) fs :=
  (Return (str "[T] " ++ text),
   World (remote w ++ [text]) (files w) (trace w)).

(** A client that fails on every text that mentions "File 2". *)
Definition flaky_translate_text (text target_language : pystr)
  (w : world (list pystr) fs) : result pystr * world (list pystr) fs :=
  if contains (str "File 2") text
  then (Raise (Exn APIError (str "API failed for file 2")),
        World (remote w ++ [text]) (files w) (trace w))
  else stub_translate_text text target_language w.

(** A client that translates contents and fails on the name [guide]. *)
Definition nameless_translate_text (text target_language : pystr)
  (w : world (list pystr) fs) : result pystr * world (list pystr) fs :=
  if str_eqb text (str "guide")
  then (Raise (Exn APIError (str "no name")),
        World (remote w ++ [text]) (files w) (trace w))
  else stub_translate_text text target_language w.

End Mem.

(** A source directory that holds [README.md] only. *)
Definition readme_world : world (list pystr) Mem.fs :=
  World [] [([str "README.md"], hello_content)] [].

(** A source directory with three documents. *)
Definition three_files_world : world (list pystr) Mem.fs :=
  World []
    [([str "file1.md"], str "# File 1");
     ([str "file2.md"], str "# File 2");
     ([str "file3.md"], str "# File 3")] [].

(** A source directory with one document in a subdirectory. *)
Definition guide_world : world (list pystr) Mem.fs :=
  World [] [([str "docs"; str "guide.md"], str "# Guide")] [].

(** A source directory with one document, and a remote service that
    fails at every call. *)
Definition failing_world : world (list reply) Mem.fs :=
  World [] [([str "test.md"], str "# Test")] [].

(** A source directory with no Markdown file in it. *)
Definition empty_world : world (list reply) Mem.fs :=
  World [] [([str "readme.txt"], str "Not a markdown file")] [].

(** Surroundings of [main] in which the directory, the key and the client
    are there. *)
Definition always_valid (f : Mem.fs) : result unit := Return tt.
Definition test_key (f : Mem.fs) : result pystr := Return (str "test_key").
Definition accepts_key (api_key : pystr) : result unit := Return tt.

(** ** More of the program: the key file, the file service, the summary *)

Module More.

Definition CR : ascii := ascii_of_nat 13.
Definition DQUOTE : ascii := ascii_of_nat 34.

(** The line boundaries of [str.splitlines], for code points below 256:
    LF, VT, FF, CR, FS, GS, RS and NEL. *)
Definition is_linebreak (c : ascii) : bool :=
  let n := nat_of_ascii c in
  ((10 <=? n) && (n <=? 13)) || ((28 <=? n) && (n <=? 30)) || (n =? 133).

(** [s.splitlines()]: a boundary ends a line, CR LF is one boundary, and no
    empty line follows the last boundary.  [after_cr] tells that the
    character before was a CR. *)
Fixpoint splitlines_from (after_cr : bool) (s : pystr) : list pystr :=
  match s with
  | [] => []
  | c :: s' =>
      if after_cr && eqc c LF then splitlines_from false s'
      else if is_linebreak c then [] :: splitlines_from (eqc c CR) s'
      else match splitlines_from false s' with
           | [] => [[c]]
           | l :: ls => (c :: l) :: ls
           end
  end.

Definition splitlines (s : pystr) : list pystr := splitlines_from false s.

(** [s.endswith(suffix)] *)
Definition endswith (suffix s : pystr) : bool :=
  startswith (rev suffix) (rev s).

(** [s[1:-1]] *)
Definition inner (s : pystr) : pystr := removelast (tl s).

End More.

(** *** [GeminiAPIClient.load_api_key_from_env] ([src/api_client.py]) *)

Module Env.

(** What the path of the key file leads to: nothing, something that is not
    a file, a file that cannot be read, or a text. *)
Inductive env_file : Type :=
| Missing
| NotAFile
| Unreadable (cause : exn)
| Readable (content : pystr).

(** The removal of a pair of quotes around the value. *)
Definition unquote (api_key : pystr) : pystr :=
  if startswith [More.DQUOTE] api_key && More.endswith [More.DQUOTE] api_key
  then More.inner api_key
  else if startswith (str "'") api_key && More.endswith (str "'") api_key
  then More.inner api_key
  else api_key.

(** What a line that starts with [key=] gives. *)
Definition key_of_line (line : pystr) : result pystr :=
  let api_key := strip (skipn 4 line) in
  let api_key := unquote api_key in
  if truthy api_key then Return api_key
  else Raise (Exn ValueError (str "API key value is empty in .env file")).

(** [for line in content.splitlines()], and the [raise] after it. *)
Fixpoint find_key (lines : list pystr) : result pystr :=
  match lines with
  | [] =>
      Raise (Exn ValueError
               (str "API key not found in .env file (expected format: key=<your_api_key>)"))
  | line :: rest =>
      let line := strip line in
      if negb (truthy line) || startswith (str "#") line then find_key rest
      else if startswith (str "key=") line then key_of_line line
      else find_key rest
  end.

(** [FileNotFoundError] is a subclass of [OSError]; it bears the tag of
    [OSError] here.  [env_file_str] is [str(env_file)]. *)
Definition load_api_key_from_env (env_file_str : pystr) (f : env_file)
  : result pystr :=
  match f with
  | Missing => Raise (Exn OSError (str ".env file not found: " ++ env_file_str))
  | NotAFile => Raise (Exn ValueError (str "Path is not a file: " ++ env_file_str))
  | Unreadable e =>
      Raise (Exn ValueError (str "Failed to read .env file: " ++ message e))
  | Readable content => find_key (More.splitlines content)
  end.

(** A line that, stripped, starts with [key=]. *)
Definition key_line (line : pystr) : bool :=
  startswith (str "key=") (strip line).

End Env.

(** *** [FileSystemService] ([src/file_service.py]) *)

Module FileSystemService.

Section Service.

(** The state of the disk, [str(path)], and the operations of [pathlib]
    that a write calls; each of them may raise. *)
Variable F : Type.
Variable path_str : path -> pystr.
Variable mkdir : path -> F -> result unit * F.
Variable write_text : path -> pystr -> F -> result unit * F.

Definition ensure_directory_exists (directory : path) (f : F)
  : result unit * F :=
  match mkdir directory f with
  | (Return u, f1) => (Return u, f1)
  | (Raise e, f1) =>
      (Raise (Exn FileSystemError
                (str "Failed to create directory " ++ path_str directory
                 ++ str ": " ++ message e)), f1)
  end.

Definition write_file (file_path : path) (content : pystr) (f : F)
  : result unit * F :=
  let wrapped (e : exn) :=
    Exn OSError (str "Failed to write file " ++ path_str file_path
                 ++ str ": " ++ message e) in
  match ensure_directory_exists (parent file_path) f with
  | (Raise e, f1) => (Raise (wrapped e), f1)
  | (Return _, f1) =>
      match write_text file_path content f1 with
      | (Return u, f2) => (Return u, f2)
      | (Raise e, f2) => (Raise (wrapped e), f2)
      end
  end.

End Service.

End FileSystemService.

(** *** [TranslationOrchestrator.print_summary] ([src/orchestrator.py]) *)

Module Summary.

Definition rule : pystr := concat (repeat (str "=") 60).

(** The lines for one failed result. *)
Definition failed_lines (path_str : path -> pystr) (r : TranslationResult)
  : list pystr :=
  (str "  - " ++ path_str (source_file r))
  :: match error_message r with
     | Some m => if truthy m then [str "    Error: " ++ m] else []
     | None => []
     end.

(** The arguments of the successive calls of [print]. *)
Definition print_summary (path_str : path -> pystr)
  (results : list TranslationResult) : list pystr :=
  match results with
  | [] => [LF :: str "[SUMMARY] No files were processed"]
  | _ :: _ =>
      let successful := filter (fun r => success r) results in
      let failed := filter (fun r => negb (success r)) results in
      [LF :: rule;
       str "TRANSLATION SUMMARY";
       rule;
       str "Total files: " ++ str_of_nat (length results);
       str "Successful: " ++ str_of_nat (length successful);
       str "Failed: " ++ str_of_nat (length failed)]
      ++ match failed with
         | [] => []
         | _ :: _ =>
             (LF :: str "Failed files:")
             :: flat_map (failed_lines path_str) failed
         end
      ++ [rule]
  end.

End Summary.

(** ** More words for the statements *)

(** The seconds slept in a trace. *)
Fixpoint total_sleep (t : list event) : Q :=
  match t with
  | [] => 0
  | Sleep seconds :: t' => seconds + total_sleep t'
  | GenerateContent _ _ :: t' => total_sleep t'
  end.

(** [attempts c prompt a evs]: [evs] is what a call of the gateway leaves in
    the trace from its attempt [a] on: calls of the remote service with
    [prompt], a wait between two calls and none after the last; each wait
    follows an attempt that is not the last of the budget and is the fixed
    wait or the back-off of that attempt. *)
Inductive attempts (c : GeminiAPIClient) (prompt : pystr)
  : nat -> list event -> Prop :=
| attempts_last a :
    a < max_retries c ->
    attempts c prompt a [GenerateContent (model_name c) prompt]
| attempts_retry a wait evs :
    a < max_retries c - 1 ->
    wait = rate_limit_wait c
    \/ wait = (retry_delay c * inject_Z (2 ^ Z.of_nat a))%Q ->
    attempts c prompt (S a) evs ->
    attempts c prompt a
      (GenerateContent (model_name c) prompt :: Sleep wait :: evs).

(** The number of lines that are footnote definitions. *)
Definition definition_lines (lines : list pystr) : nat :=
  length (filter (fun l => Shield.footnote_def_match (strip l)) lines).

(** [str(path)] for the examples: the components with slashes between. *)
Fixpoint posix_str (p : path) : pystr :=
  match p with
  | [] => []
  | [x] => x
  | x :: p' => x ++ str "/" ++ posix_str p'
  end.

(** Two results, of which the second is a failure. *)
Definition mixed_results : list TranslationResult :=
  [Result [str "good.md"] true None;
   Result [str "bad.md"] false (Some (str "Permission denied"))].

(** A line that the inner loop of the transform takes into a footnote:
    not blank, no definition, and indented by four spaces or a tab. *)
Definition continuation_line (l : pystr) : bool :=
  truthy (strip l)
  && negb (Shield.footnote_def_match (strip l))
  && (startswith (str "    ") l || startswith [TAB] l).

(** A text that is a footnote block: a definition line, then continuation
    lines. *)
Definition footnote_block (text : pystr) : Prop :=
  exists first rest,
    split_lines text = first :: rest
    /\ Shield.footnote_def_match (strip first) = true
    /\ Forall (fun l => continuation_line l = true) rest.

(* ================================================================== *)
(** * Properties *)

Unset Implicit Arguments.

(** ** Strings *)

Section StringFacts.

Lemma eqc_true (a b : ascii) : eqc a b = true <-> a = b.
Proof. apply Ascii.eqb_eq. Qed.

Lemma eqc_false (a b : ascii) : eqc a b = false <-> a <> b.
Proof. apply Ascii.eqb_neq. Qed.

Lemma eqc_refl (a : ascii) : eqc a a = true.
Proof. now apply eqc_true. Qed.

Lemma join_split (s : pystr) : join_lines (split_lines s) = s.
Proof.
  induction s as [|c s IH]; [reflexivity|].
  simpl. destruct (eqc c LF) eqn:E.
  - apply eqc_true in E. subst c.
    destruct (split_lines s) as [|l ls] eqn:Es.
    + simpl in IH. now subst s.
    + change (join_lines ([] :: l :: ls)) with (LF :: join_lines (l :: ls)).
      now rewrite IH.
  - destruct (split_lines s) as [|l ls] eqn:Es.
    + simpl in IH. now subst s.
    + destruct ls as [|l' ls'].
      * simpl in *. now subst.
      * change (join_lines ((c :: l) :: l' :: ls'))
          with (c :: (l ++ LF :: join_lines (l' :: ls'))).
        f_equal. exact IH.
Qed.

Lemma join_cons (l : pystr) (ls : list pystr) :
  ls <> [] -> join_lines (l :: ls) = l ++ LF :: join_lines ls.
Proof. destruct ls; [congruence | reflexivity]. Qed.

Lemma join_app_cons (fl : list pystr) (p : pystr) (ps : list pystr) :
  fl <> [] ->
  join_lines (fl ++ p :: ps) = join_lines fl ++ LF :: join_lines (p :: ps).
Proof.
  induction fl as [|l fl IH]; [congruence|]. intros _.
  destruct fl as [|l' fl'].
  - reflexivity.
  - change ((l :: l' :: fl') ++ p :: ps) with (l :: ((l' :: fl') ++ p :: ps)).
    rewrite join_cons by (simpl; discriminate).
    rewrite IH by discriminate.
    rewrite (join_cons l (l' :: fl')) by discriminate.
    now rewrite <- app_assoc.
Qed.

Lemma join_flat (pre fl post : list pystr) :
  fl <> [] ->
  join_lines (pre ++ join_lines fl :: post) = join_lines (pre ++ fl ++ post).
Proof.
  intros Hfl. induction pre as [|x pre IH].
  - simpl. destruct post as [|p ps].
    + now rewrite app_nil_r.
    + rewrite join_app_cons by assumption. reflexivity.
  - simpl app. rewrite !join_cons.
    + now rewrite IH.
    + destruct pre, fl; simpl; congruence.
    + destruct pre; discriminate.
Qed.

Lemma startswith_app (p t : pystr) : startswith p (p ++ t) = true.
Proof.
  induction p as [|a p IH]; [reflexivity|]. simpl. now rewrite eqc_refl.
Qed.

Lemma startswith_spec (p s : pystr) :
  startswith p s = true -> exists t, s = p ++ t.
Proof.
  revert s. induction p as [|a p IH]; intros s H.
  - now exists s.
  - destruct s as [|b s]; [discriminate|]. simpl in H.
    apply andb_true_iff in H. destruct H as [Hab H].
    apply eqc_true in Hab. subst b.
    destruct (IH _ H) as [t ->]. now exists t.
Qed.

Lemma startswith_sep (old a b : pystr) (c : ascii) :
  ~ In c old -> startswith old (a ++ c :: b) = startswith old a.
Proof.
  revert a. induction old as [|o old IH]; intros a Hc; [reflexivity|].
  destruct a as [|x a]; simpl.
  - replace (eqc o c) with false; [reflexivity|].
    symmetry. apply eqc_false. intros ->. apply Hc. now left.
  - rewrite IH; [reflexivity|]. intros H. apply Hc. now right.
Qed.

Lemma contains_spec (p s : pystr) :
  contains p s = true -> exists a b, s = a ++ p ++ b.
Proof.
  induction s as [|c s IH]; simpl; intros H.
  - rewrite orb_false_r in H. apply startswith_spec in H.
    destruct H as [t Ht]. now exists [], t.
  - apply orb_true_iff in H. destruct H as [H|H].
    + apply startswith_spec in H. destruct H as [t Ht]. now exists [], t.
    + destruct (IH H) as (a & b & ->). now exists (c :: a), b.
Qed.

Lemma contains_app (a p b : pystr) : contains p (a ++ p ++ b) = true.
Proof.
  induction a as [|c a IH].
  - simpl app. pose proof (startswith_app p b) as H.
    destruct (p ++ b); simpl; now rewrite H.
  - simpl. rewrite IH. apply orb_true_r.
Qed.

(** The three equations of [replace]. *)

Lemma replace_from_skip (old new x t : pystr) :
  replace_from old new (length x) (x ++ t) = replace_from old new 0 t.
Proof.
  induction x as [|c x IH]; simpl.
  - destruct t; reflexivity.
  - exact IH.
Qed.

Lemma replace_from_match (old new t : pystr) :
  old <> [] ->
  replace_from old new 0 (old ++ t) = new ++ replace_from old new 0 t.
Proof.
  destruct old as [|o old]; [congruence|]. intros _.
  change ((o :: old) ++ t) with (o :: (old ++ t)).
  cbn [replace_from].
  change (o :: old ++ t) with ((o :: old) ++ t).
  rewrite startswith_app.
  replace (length (o :: old) - 1) with (length old) by (simpl; lia).
  now rewrite replace_from_skip.
Qed.

Lemma replace_from_step (old new : pystr) (c : ascii) (s : pystr) :
  startswith old (c :: s) = false ->
  replace_from old new 0 (c :: s) = c :: replace_from old new 0 s.
Proof. intros H. cbn [replace_from]. now rewrite H. Qed.

Lemma replace_absent (old new s : pystr) :
  old <> [] -> contains old s = false -> replace old new s = s.
Proof.
  intros Hold. unfold replace. destruct old as [|o old]; [congruence|].
  induction s as [|c s IH]; [reflexivity|].
  intros H. cbn [contains] in H. apply orb_false_iff in H. destruct H as [H1 H2].
  rewrite replace_from_step by exact H1. now rewrite IH.
Qed.

Lemma replace_self (old new : pystr) : old <> [] -> replace old new old = new.
Proof.
  intros Hold. unfold replace. destruct old as [|o old'] eqn:E; [congruence|].
  rewrite <- E in *.
  rewrite <- (app_nil_r old) at 2. rewrite replace_from_match by assumption.
  simpl. apply app_nil_r.
Qed.

Lemma replace_from_sep (old new : pystr) (c : ascii) (b : pystr) :
  old <> [] -> ~ In c old ->
  forall a,
    replace_from old new 0 (a ++ c :: b)
    = replace_from old new 0 a ++ c :: replace_from old new 0 b.
Proof.
  intros Hold Hc a.
  remember (length a) as n eqn:Hn. revert a Hn.
  induction n as [n IH] using lt_wf_ind. intros a Hn.
  destruct a as [|x a].
  - simpl app. rewrite replace_from_step; [reflexivity|].
    change (c :: b) with ([] ++ c :: b). rewrite startswith_sep by assumption.
    destruct old; [congruence | reflexivity].
  - destruct (startswith old (x :: a)) eqn:E.
    + destruct (startswith_spec _ _ E) as [t Ht]. rewrite Ht.
      rewrite <- app_assoc. rewrite !replace_from_match by assumption.
      rewrite (IH (length t)) with (a := t); [now rewrite <- app_assoc | | reflexivity].
      subst n. rewrite Ht, length_app.
      destruct old; [congruence | simpl; lia].
    + change ((x :: a) ++ c :: b) with (x :: (a ++ c :: b)).
      rewrite !replace_from_step.
      * rewrite (IH (length a)) with (a := a); [reflexivity | | reflexivity].
        subst n. simpl. lia.
      * exact E.
      * change (x :: a ++ c :: b) with ((x :: a) ++ c :: b).
        now rewrite startswith_sep.
Qed.

Lemma replace_join (old new : pystr) (ls : list pystr) :
  old <> [] -> ~ In LF old ->
  replace old new (join_lines ls) = join_lines (map (replace old new) ls).
Proof.
  intros Hold HLF. unfold replace. destruct old as [|o old'] eqn:E; [congruence|].
  rewrite <- E in *. clear E.
  induction ls as [|l ls IH]; [reflexivity|].
  destruct ls as [|l' ls'].
  - reflexivity.
  - rewrite join_cons by discriminate.
    rewrite replace_from_sep by assumption.
    rewrite IH. reflexivity.
Qed.

End StringFacts.

(** ** Placeholders *)

Section PlaceholderFacts.

Import Shield.

Lemma string_of_uint_digits (d : Decimal.uint) :
  Forall (fun c => is_digit c = true)
    (list_ascii_of_string (NilEmpty.string_of_uint d)).
Proof. induction d; simpl; constructor; auto. Qed.

Lemma str_of_nat_digits (n : nat) :
  Forall (fun c => is_digit c = true) (str_of_nat n).
Proof. apply string_of_uint_digits. Qed.

Lemma str_of_nat_inj (i j : nat) : str_of_nat i = str_of_nat j -> i = j.
Proof.
  unfold str_of_nat. intros H.
  apply (f_equal string_of_list_ascii) in H.
  rewrite !string_of_list_ascii_of_string in H.
  apply (f_equal NilEmpty.uint_of_string) in H.
  rewrite !NilEmpty.usu in H. injection H as H.
  apply (f_equal Nat.of_uint) in H.
  now rewrite !DecimalNat.Unsigned.of_to in H.
Qed.

Lemma digits_until_underscore (d1 d2 r1 r2 : pystr) :
  Forall (fun c => is_digit c = true) d1 ->
  Forall (fun c => is_digit c = true) d2 ->
  d1 ++ "_"%char :: r1 = d2 ++ "_"%char :: r2 -> d1 = d2.
Proof.
  intros H1. revert d2. induction H1 as [|c d1 Hc _ IH]; intros d2 H2 E.
  - destruct H2 as [|c' d2 Hc' _]; [reflexivity|].
    simpl in E. injection E as E _. subst c'. discriminate.
  - destruct H2 as [|c' d2 Hc' H2].
    + simpl in E. injection E as E _. subst c. discriminate.
    + simpl in E. injection E as -> E. f_equal. now apply IH.
Qed.

Lemma placeholder_not_nil (i : nat) : placeholder i <> [].
Proof. discriminate. Qed.

Lemma placeholder_no_LF (i : nat) : ~ In LF (placeholder i).
Proof.
  unfold placeholder. rewrite !in_app_iff. intros [H|[H|H]].
  - simpl in H. repeat (destruct H as [H|H]; [discriminate|]). exact H.
  - pose proof (str_of_nat_digits i) as D. rewrite Forall_forall in D.
    apply D in H. discriminate.
  - simpl in H. repeat (destruct H as [H|H]; [discriminate|]). exact H.
Qed.

Lemma placeholder_inj (i j : nat) : placeholder i = placeholder j -> i = j.
Proof.
  unfold placeholder. intros H. apply app_inv_head in H.
  apply app_inv_tail in H. now apply str_of_nat_inj.
Qed.

(** A placeholder occurs in another one only when both are the same: the
    letter F is at the third place of a placeholder and nowhere else. *)
Lemma placeholder_in_placeholder (i j : nat) :
  contains (placeholder i) (placeholder j) = true -> i = j.
Proof.
  intros H. apply contains_spec in H. destruct H as (pre & post & E).
  unfold placeholder in E.
  destruct pre as [|c0 pre].
  - simpl in E. injection E as E.
    apply str_of_nat_inj.
    symmetry. rewrite <- app_assoc in E.
    eapply digits_until_underscore; [| | exact E]; apply str_of_nat_digits.
  - exfalso. destruct pre as [|c1 pre].
    + simpl in E. discriminate E.
    + simpl in E. injection E as _ _ E.
      match type of E with
      | _ = ?rhs => assert (HF : In "F"%char (tl rhs))
      end.
      { destruct pre as [|c2 pre]; simpl.
        - right. now left.
        - apply in_or_app. right. simpl. right. right. now left. }
      rewrite <- E in HF. simpl in HF.
      repeat (destruct HF as [HF|HF]; [discriminate|]).
      apply in_app_or in HF. destruct HF as [HF|HF].
      * pose proof (str_of_nat_digits j) as D. rewrite Forall_forall in D.
        apply D in HF. discriminate.
      * simpl in HF. repeat (destruct HF as [HF|HF]; [discriminate|]). exact HF.
Qed.

End PlaceholderFacts.

(** ** The shielding transform *)

Section ShieldFacts.

Import Shield.

Lemma collect_continuation_app (lines more remaining : list pystr) :
  collect_continuation lines = (more, remaining) -> lines = more ++ remaining.
Proof.
  revert more remaining.
  induction lines as [|l lines IH]; intros more remaining H;
    cbn [collect_continuation] in H.
  - now injection H as <- <-.
  - destruct (negb (truthy (strip l))); [now injection H as <- <-|].
    destruct (footnote_def_match (strip l)); [now injection H as <- <-|].
    destruct (startswith (str "    ") l || startswith [TAB] l);
      [|now injection H as <- <-].
    destruct (collect_continuation lines) as [m r].
    injection H as <- <-. simpl. f_equal. now apply IH.
Qed.

(** The loop computes the relation, and [len(lines)] turns are enough. *)
Lemma preprocess_loop_shielded (fuel : nat) :
  forall lines processed_lines footnotes,
    length lines <= fuel ->
    exists processed' footnotes',
      preprocess_loop fuel lines processed_lines footnotes
      = (processed_lines ++ processed', footnotes ++ footnotes')
      /\ shielded (length footnotes) lines processed' footnotes'.
Proof.
  induction fuel as [|fuel IH]; intros lines P0 F0 Hlen.
  - destruct lines; [|simpl in Hlen; lia].
    exists [], []. rewrite !app_nil_r. split; [reflexivity | constructor].
  - destruct lines as [|line rest].
    + exists [], []. rewrite !app_nil_r. split; [reflexivity | constructor].
    + simpl in Hlen. cbn [preprocess_loop].
      destruct (footnote_def_match (strip line)).
      * destruct (collect_continuation rest) as [more remaining] eqn:Ec.
        apply collect_continuation_app in Ec. subst rest.
        rewrite length_app in Hlen.
        destruct (IH remaining
                    (P0 ++ [placeholder (length (F0 ++ [join_lines (line :: more)]) - 1)])
                    (F0 ++ [join_lines (line :: more)]))
          as (P1 & F1 & E & HS); [lia|].
        rewrite E.
        replace (length (F0 ++ [join_lines (line :: more)]) - 1)
          with (length F0) in * by (rewrite length_app; simpl; lia).
        replace (length (F0 ++ [join_lines (line :: more)]))
          with (S (length F0)) in HS by (rewrite length_app; simpl; lia).
        exists (placeholder (length F0) :: P1), (join_lines (line :: more) :: F1).
        rewrite <- !app_assoc. split; [reflexivity|].
        change (line :: more ++ remaining) with ((line :: more) ++ remaining).
        constructor; [discriminate | exact HS].
      * destruct (IH rest (P0 ++ [line]) F0) as (P1 & F1 & E & HS); [lia|].
        rewrite E. exists (line :: P1), F1.
        rewrite <- !app_assoc. split; [reflexivity|].
        now constructor.
Qed.

Lemma preprocess_markdown_shielded (content : pystr) :
  exists processed,
    fst (preprocess_markdown content) = join_lines processed
    /\ shielded 0 (split_lines content) processed
         (snd (preprocess_markdown content)).
Proof.
  unfold preprocess_markdown.
  destruct (preprocess_loop_shielded (length (split_lines content))
              (split_lines content) [] [] (le_n _)) as (P & Fs & E & HS).
  rewrite E. simpl. now exists P.
Qed.

Lemma shielded_processed n lines processed footnotes :
  shielded n lines processed footnotes ->
  forall l, In l processed ->
    In l lines
    \/ exists k, n <= k < n + length footnotes /\ l = placeholder k.
Proof.
  induction 1 as [n | n line lines P Fs _ IH | n block lines P Fs Hb _ IH];
    intros l Hl.
  - destruct Hl.
  - destruct Hl as [<-|Hl]; [left; now left|].
    destruct (IH _ Hl) as [Hin|Hk]; [left; now right | now right].
  - destruct Hl as [<-|Hl].
    + right. exists n. simpl. split; [lia | reflexivity].
    + destruct (IH _ Hl) as [Hin|(k & Hk & ->)].
      * left. apply in_or_app. now right.
      * right. exists k. simpl. split; [lia | reflexivity].
Qed.

Lemma map_replace_absent (old new : pystr) (ls : list pystr) :
  old <> [] ->
  (forall l, In l ls -> contains old l = false) ->
  map (replace old new) ls = ls.
Proof.
  intros Hold H. induction ls as [|l ls IH]; [reflexivity|].
  simpl. rewrite replace_absent by (auto; apply H; now left).
  f_equal. apply IH. intros l' Hl'. apply H. now right.
Qed.

(** Unshielding undoes the relation, whatever lines came before. *)
Lemma restore_shielded n lines processed footnotes :
  shielded n lines processed footnotes ->
  forall before,
    (forall k l, n <= k < n + length footnotes -> In l (before ++ lines) ->
                 contains (placeholder k) l = false) ->
    restore_from n footnotes (join_lines (before ++ processed))
    = join_lines (before ++ lines).
Proof.
  induction 1 as [n | n line lines P Fs _ IH | n block lines P Fs Hb HS IH];
    intros before Hfree.
  - reflexivity.
  - specialize (IH (before ++ [line])).
    rewrite <- !app_assoc in IH. apply IH.
    intros k l Hk Hl. now apply Hfree.
  - cbn [restore_from].
    rewrite replace_join by (apply placeholder_not_nil || apply placeholder_no_LF).
    rewrite map_app. cbn [map].
    rewrite replace_self by apply placeholder_not_nil.
    rewrite !map_replace_absent; try apply placeholder_not_nil.
    + rewrite join_flat by assumption.
      specialize (IH (before ++ block)).
      rewrite <- !app_assoc in IH. apply IH.
      intros k l Hk Hl. apply Hfree; [simpl; lia | exact Hl].
    + intros l Hl.
      destruct (shielded_processed _ _ _ _ HS _ Hl) as [Hin|(k & Hk & ->)].
      * apply Hfree; [simpl; lia|].
        apply in_or_app. right. apply in_or_app. now right.
      * destruct (contains (placeholder n) (placeholder k)) eqn:E;
          [|reflexivity].
        apply placeholder_in_placeholder in E. lia.
    + intros l Hl. apply Hfree; [simpl; lia|].
      apply in_or_app. now left.
Qed.

Lemma postprocess_restore (translated : pystr) (footnotes : list pystr) :
  postprocess_markdown translated footnotes = restore_from 0 footnotes translated.
Proof. destruct footnotes; reflexivity. Qed.

End ShieldFacts.

(** The unit tests of [preprocess_markdown] and of the pattern. *)

Example pattern_examples :
  Shield.footnote_def_match (str "[^1]: Footnote text.") = true
  /\ Shield.footnote_def_match (str "[^note]:x") = true
  /\ Shield.footnote_def_match (str "[^1]:") = false
  /\ Shield.footnote_def_match (str "[^]: x") = false
  /\ Shield.footnote_def_match (str "Text with footnote[^1].") = false
  /\ Shield.footnote_def_match (str "[^a]b]: x") = false.
Proof. repeat split; reflexivity. Qed.

Example preprocess_no_footnotes :
  Shield.preprocess_markdown (str "# Title" ++ [LF; LF] ++ str "Some text.")
  = (str "# Title" ++ [LF; LF] ++ str "Some text.", []).
Proof. vm_compute. reflexivity. Qed.

Example preprocess_multiple_footnotes :
  Shield.preprocess_markdown
    (str "# Title" ++ [LF; LF]
     ++ str "Text with footnote[^1] and another[^note]." ++ [LF; LF]
     ++ str "[^1]: First footnote." ++ [LF]
     ++ str "[^note]: Second footnote.")
  = (str "# Title" ++ [LF; LF]
     ++ str "Text with footnote[^1] and another[^note]." ++ [LF; LF]
     ++ str "__FOOTNOTE_0__" ++ [LF] ++ str "__FOOTNOTE_1__",
     [str "[^1]: First footnote."; str "[^note]: Second footnote."]).
Proof. vm_compute. reflexivity. Qed.

Example preprocess_multiline_footnote :
  Shield.preprocess_markdown
    (str "Text[^1]." ++ [LF; LF]
     ++ str "[^1]: First line." ++ [LF]
     ++ str "    Second line indented." ++ [LF]
     ++ str "Not indented.")
  = (str "Text[^1]." ++ [LF; LF] ++ str "__FOOTNOTE_0__" ++ [LF]
     ++ str "Not indented.",
     [str "[^1]: First line." ++ [LF] ++ str "    Second line indented."]).
Proof. vm_compute. reflexivity. Qed.

(** C1 (as amended).  For every content none of whose lines contains the
    placeholder token [__FOOTNOTE_k__] of an extracted footnote (k below the
    number of footnotes that shielding extracts), unshielding the shielded
    content with the returned table gives back the content exactly. *)
Theorem shield_unshield_roundtrip (content : pystr) :
  (forall k line,
      k < length (snd (Shield.preprocess_markdown content)) ->
      In line (split_lines content) ->
      contains (Shield.placeholder k) line = false) ->
  Shield.postprocess_markdown
    (fst (Shield.preprocess_markdown content))
    (snd (Shield.preprocess_markdown content))
  = content.
Proof.
  intros Hfree.
  destruct (preprocess_markdown_shielded content) as (P & EP & HS).
  rewrite EP, postprocess_restore.
  pose proof (restore_shielded _ _ _ _ HS []) as Hr. simpl app in Hr.
  rewrite Hr.
  - apply join_split.
  - intros k l Hk Hl. apply Hfree; [lia | exact Hl].
Qed.

Lemma shield_unshield_roundtrip_witness :
  Shield.postprocess_markdown
    (fst (Shield.preprocess_markdown hello_content))
    (snd (Shield.preprocess_markdown hello_content))
  = hello_content.
Proof.
  apply shield_unshield_roundtrip.
  intros k line Hk Hin.
  vm_compute in Hk. assert (k = 0) as -> by lia.
  vm_compute in Hin.
  repeat (destruct Hin as [<-|Hin]; [vm_compute; reflexivity|]).
  destruct Hin.
Defined.

(** C1 (as stated) fails: a content with one well-formed footnote
    definition whose first line is the text of placeholder 0.  Unshielding
    puts the footnote in both places. *)
Lemma shield_unshield_clash :
  snd (Shield.preprocess_markdown clash_content) = [str "[^1]: Note."]
  /\ Shield.postprocess_markdown
       (fst (Shield.preprocess_markdown clash_content))
       (snd (Shield.preprocess_markdown clash_content))
     = str "[^1]: Note." ++ [LF] ++ str "[^1]: Note."
  /\ Shield.postprocess_markdown
       (fst (Shield.preprocess_markdown clash_content))
       (snd (Shield.preprocess_markdown clash_content))
     <> clash_content.
Proof.
  split; [vm_compute; reflexivity|].
  split; [vm_compute; reflexivity|].
  vm_compute. discriminate.
Qed.

(** ** The gateway *)

Section StripFacts.

Lemma lstrip_split (s : pystr) :
  exists ws, s = ws ++ lstrip s /\ Forall (fun c => is_space c = true) ws.
Proof.
  induction s as [|c s (ws & E & H)].
  - now exists [].
  - simpl. destruct (is_space c) eqn:Ec.
    + exists (c :: ws). split; [simpl; now f_equal | now constructor].
    + now exists [].
Qed.

Lemma lstrip_head (s : pystr) (c : ascii) :
  hd_error (lstrip s) = Some c -> is_space c = false.
Proof.
  induction s as [|a s IH]; simpl; [discriminate|].
  destruct (is_space a) eqn:Ea; [exact IH|].
  simpl. now intros [= <-].
Qed.

Lemma lstrip_nil (s : pystr) :
  lstrip s = [] <-> Forall (fun c => is_space c = true) s.
Proof.
  induction s as [|a s IH]; simpl.
  - split; [constructor | reflexivity].
  - destruct (is_space a) eqn:Ea.
    + rewrite IH. split; [now constructor | now inversion 1].
    + split; [discriminate|]. inversion 1; congruence.
Qed.

Lemma rstrip_split (s : pystr) :
  exists ws, s = rstrip s ++ ws /\ Forall (fun c => is_space c = true) ws.
Proof.
  unfold rstrip. destruct (lstrip_split (rev s)) as (ws & E & H).
  exists (rev ws). split.
  - rewrite <- rev_app_distr, <- E. now rewrite rev_involutive.
  - now apply Forall_rev.
Qed.

(** The strip of a string neither starts nor ends with white space. *)
Lemma strip_head (s : pystr) (c : ascii) :
  hd_error (strip s) = Some c -> is_space c = false.
Proof.
  unfold strip. intros H.
  destruct (rstrip_split (lstrip s)) as (ws & E & _).
  apply (lstrip_head s). rewrite E.
  destruct (rstrip (lstrip s)); [discriminate | exact H].
Qed.

Lemma strip_last (s : pystr) (c d : ascii) :
  strip s <> [] -> last (strip s) d = c -> is_space c = false.
Proof.
  unfold strip, rstrip. intros Hne H.
  destruct (lstrip (rev (lstrip s))) as [|a t] eqn:E; [now elim Hne|].
  apply (lstrip_head (rev (lstrip s))). rewrite E.
  simpl in H. rewrite last_last in H. now subst.
Qed.

Lemma strip_nil (s : pystr) :
  strip s = [] <-> Forall (fun c => is_space c = true) s.
Proof.
  unfold strip, rstrip. split.
  - intros H. apply (f_equal (@rev _)) in H. rewrite rev_involutive in H.
    simpl in H. apply lstrip_nil in H. apply Forall_rev in H.
    rewrite rev_involutive in H.
    destruct (lstrip s) as [|a t] eqn:E; [now apply lstrip_nil|].
    inversion H as [|? ? Ha _]; subst.
    assert (is_space a = false) by (apply (lstrip_head s); now rewrite E).
    congruence.
  - intros H. apply lstrip_nil in H. now rewrite H.
Qed.

(** [not text or not text.strip()] says: every character is white space. *)
Lemma blank_spec (text : pystr) :
  blank text = true <-> Forall (fun c => is_space c = true) text.
Proof.
  unfold blank. rewrite <- strip_nil.
  destruct text as [|a t]; [simpl; tauto|].
  cbn [truthy negb orb].
  destruct (strip (a :: t)); simpl; split; congruence.
Qed.

Lemma mentions_spec (needle msg : pystr) :
  mentions needle msg = true
  <-> exists a m b, msg = a ++ m ++ b /\ lower m = lower needle.
Proof.
  unfold mentions. split.
  - intros H. apply contains_spec in H. destruct H as (a' & b' & E).
    unfold lower in E at 1. apply map_eq_app in E.
    destruct E as (a & mb & -> & Ha & E).
    apply map_eq_app in E. destruct E as (m & b & -> & Hm & Hb).
    now exists a, m, b.
  - intros (a & m & b & -> & E).
    unfold lower at 2. rewrite !map_app. fold (lower m). rewrite E.
    apply contains_app.
Qed.

End StripFacts.

Section GatewayFacts.

Variables R F : Type.
Variable generate_content : pystr -> pystr -> R -> reply * R.
Variable c : GeminiAPIClient.

Local Abbreviation world := (world R F).
Local Abbreviation called prompt := (GenerateContent (model_name c) prompt).

Lemma rate_limit_condition (msg : pystr) :
  (contains (str "quota") (lower msg)
   || contains (str "rate limit") (lower msg)
   || contains (str "429") (lower msg))
  || (contains (str "resource exhausted") (lower msg)
      || contains (str "resource_exhausted") (lower msg))
  = rate_limit_message msg.
Proof.
  unfold rate_limit_message, mentions.
  change (lower (str "quota")) with (str "quota").
  change (lower (str "rate limit")) with (str "rate limit").
  change (lower (str "429")) with (str "429").
  change (lower (str "resource exhausted")) with (str "resource exhausted").
  change (lower (str "resource_exhausted")) with (str "resource_exhausted").
  now rewrite !orb_assoc.
Qed.

(** The [except] clauses on an exception of the client library. *)
Lemma except_clauses_raised (attempt : nat) (msg : pystr) :
  except_clauses c attempt (Exn Exception_ msg)
  = sleep_or_raise c attempt (wait_after c attempt (Fails msg))
      (kept_exception (Fails msg)).
Proof.
  unfold except_clauses, wait_after, kept_exception, rate_limit_failure.
  cbn [isinstance issubclass class_of message].
  rewrite <- rate_limit_condition.
  destruct (contains (str "quota") (lower msg)
            || contains (str "rate limit") (lower msg)
            || contains (str "429") (lower msg)); [reflexivity|].
  cbn [orb].
  destruct (contains (str "resource exhausted") (lower msg)
            || contains (str "resource_exhausted") (lower msg)); reflexivity.
Qed.

(** The [except] clauses on the gateway's own error for an empty response. *)
Lemma except_clauses_empty (attempt : nat) (rep : reply) :
  empty_response rep = true ->
  except_clauses c attempt (Exn APIError (str "API returned empty response"))
  = sleep_or_raise c attempt (wait_after c attempt rep) (kept_exception rep).
Proof.
  destruct rep as [r|msg]; [|discriminate]. intros _. reflexivity.
Qed.

Lemma try_body_success (prompt : pystr) (w : world) (t : pystr) (r1 : R) :
  generate_content (model_name c) prompt (remote w)
  = (Responds (Some (Response (Some t))), r1) ->
  truthy t = true ->
  try_body generate_content c prompt w
  = (Return (strip t), World r1 (files w) (trace w ++ [called prompt])).
Proof.
  intros E Ht. unfold try_body, call_generate_content. rewrite E.
  cbn [text]. now rewrite Ht.
Qed.

Lemma try_body_failure (prompt : pystr) (w : world) (rep : reply) (r1 : R) :
  generate_content (model_name c) prompt (remote w) = (rep, r1) ->
  is_failure rep = true ->
  exists e,
    try_body generate_content c prompt w
    = (Raise e, World r1 (files w) (trace w ++ [called prompt]))
    /\ forall attempt,
        except_clauses c attempt e
        = sleep_or_raise c attempt (wait_after c attempt rep)
            (kept_exception rep).
Proof.
  intros E Hf. unfold try_body, call_generate_content. rewrite E.
  destruct rep as [[[[t|]]|]|msg].
  - cbn [text]. unfold is_failure in Hf. cbn in Hf. rewrite orb_false_r in Hf.
    destruct (truthy t) eqn:Et; [discriminate|].
    eexists. split; [reflexivity|]. intros a.
    apply except_clauses_empty. cbn. now rewrite Et.
  - eexists. split; [reflexivity|]. intros a. now apply except_clauses_empty.
  - eexists. split; [reflexivity|]. intros a. now apply except_clauses_empty.
  - eexists. split; [reflexivity|]. intros a. apply except_clauses_raised.
Qed.

Lemma try_body_empty (prompt : pystr) (w : world) (rep : reply) (r1 : R) :
  generate_content (model_name c) prompt (remote w) = (rep, r1) ->
  empty_response rep = true ->
  try_body generate_content c prompt w
  = (Raise (Exn APIError (str "API returned empty response")),
     World r1 (files w) (trace w ++ [called prompt])).
Proof.
  intros E He. unfold try_body, call_generate_content. rewrite E.
  destruct rep as [[[[t|]]|]|msg]; try discriminate; try reflexivity.
  cbn in He. cbn [text]. apply negb_true_iff in He. now rewrite He.
Qed.

(** One turn of the loop. *)
Lemma retry_loop_success (prompt : pystr) (attempt : nat) (rest : list nat)
  (last : option exn) (w : world) (t : pystr) (r1 : R) :
  generate_content (model_name c) prompt (remote w)
  = (Responds (Some (Response (Some t))), r1) ->
  truthy t = true ->
  retry_loop generate_content c prompt (attempt :: rest) last w
  = (Return (strip t), World r1 (files w) (trace w ++ [called prompt])).
Proof.
  intros E Ht. cbn [retry_loop]. now rewrite (try_body_success _ _ _ _ E Ht).
Qed.

Lemma retry_loop_failure (prompt : pystr) (attempt : nat) (rest : list nat)
  (last : option exn) (w : world) (rep : reply) (r1 : R) :
  generate_content (model_name c) prompt (remote w) = (rep, r1) ->
  is_failure rep = true ->
  retry_loop generate_content c prompt (attempt :: rest) last w
  = if attempt <? max_retries c - 1
    then retry_loop generate_content c prompt rest (Some (kept_exception rep))
           (World r1 (files w)
              (trace w ++ [called prompt; Sleep (wait_after c attempt rep)]))
    else (Raise (kept_exception rep),
          World r1 (files w) (trace w ++ [called prompt])).
Proof.
  intros E Hf. cbn [retry_loop].
  destruct (try_body_failure _ _ _ _ E Hf) as (e & -> & He).
  rewrite He. unfold sleep_or_raise.
  destruct (attempt <? max_retries c - 1); [|reflexivity].
  unfold sleep. cbn [remote files trace]. now rewrite <- app_assoc.
Qed.

(** Failed attempts that are not the last one: each is followed by its wait,
    and the loop goes on with the attempts that remain. *)
Lemma retry_loop_failures (prompt : pystr) (reps : list reply) :
  forall (attempt n : nat) (last : option exn) (w : world) (r' : R),
    replies generate_content (model_name c) prompt (remote w) reps r' ->
    Forall (fun rep => is_failure rep = true) reps ->
    attempt + length reps < max_retries c ->
    exists last',
      retry_loop generate_content c prompt (seq attempt (length reps + n)) last w
      = retry_loop generate_content c prompt (seq (attempt + length reps) n) last'
          (World r' (files w)
             (trace w ++ failed_attempts c prompt attempt reps)).
Proof.
  induction reps as [|rep reps IH]; intros attempt n last w r' Hr Hf Hlt.
  - inversion Hr; subst. exists last. simpl.
    rewrite Nat.add_0_r, app_nil_r. now destruct w.
  - inversion Hr as [|? ? r1 ? ? E Hr']; subst.
    inversion Hf as [|? ? Hrep Hf']; subst.
    simpl length in *. cbn [Nat.add seq].
    rewrite (retry_loop_failure _ _ _ _ _ _ _ E Hrep).
    replace (attempt <? max_retries c - 1) with true
      by (symmetry; apply Nat.ltb_lt; lia).
    destruct (IH (S attempt) n (Some (kept_exception rep))
                (World r1 (files w)
                   (trace w ++ [called prompt; Sleep (wait_after c attempt rep)]))
                r' Hr' Hf') as (last' & E'); [lia |].
    exists last'. rewrite E'. cbn [remote files trace failed_attempts].
    rewrite <- app_assoc. simpl app.
    now replace (S attempt + length reps) with (attempt + S (length reps)) by lia.
Qed.

Lemma replies_app (model contents : pystr) (r : R) (reps1 reps2 : list reply)
  (r' : R) :
  replies generate_content model contents r (reps1 ++ reps2) r' ->
  exists r1,
    replies generate_content model contents r reps1 r1
    /\ replies generate_content model contents r1 reps2 r'.
Proof.
  revert r. induction reps1 as [|rep reps1 IH]; intros r H.
  - exists r. split; [constructor | exact H].
  - inversion H as [|? ? r1 ? ? E H']; subst.
    destruct (IH _ H') as (r2 & H1 & H2).
    exists r2. split; [econstructor; eassumption | exact H2].
Qed.

(** Failures, then a success within the budget. *)
Lemma translate_text_recovers (text target : pystr) (w : world)
  (reps : list reply) (t : pystr) (r' : R) :
  blank text = false ->
  Forall (fun rep => is_failure rep = true) reps ->
  truthy t = true ->
  length reps < max_retries c ->
  replies generate_content (model_name c) (make_prompt text target) (remote w)
    (reps ++ [Responds (Some (Response (Some t)))]) r' ->
  translate_text generate_content c text target w
  = (Return (strip t),
     World r' (files w)
       (trace w ++ failed_attempts c (make_prompt text target) 0 reps
        ++ [called (make_prompt text target)])).
Proof.
  intros Hb Hf Ht Hlen Hr. unfold translate_text. rewrite Hb.
  apply replies_app in Hr. destruct Hr as (r1 & Hr1 & Hr2).
  inversion Hr2 as [|? ? r2 ? ? E Hr3]; subst. inversion Hr3; subst.
  replace (max_retries c)
    with (length reps + S (max_retries c - length reps - 1)) at 1 by lia.
  destruct (retry_loop_failures _ reps 0 (S (max_retries c - length reps - 1))
              None w r1 Hr1 Hf) as (last' & ->); [simpl; lia|].
  cbn [seq]. rewrite (retry_loop_success _ _ _ _ _ t r'); [| exact E | exact Ht].
  cbn [remote files trace]. now rewrite <- app_assoc.
Qed.

(** Failures that use up the budget. *)
Lemma translate_text_exhausts (text target : pystr) (w : world)
  (reps : list reply) (rep : reply) (r' : R) :
  blank text = false ->
  Forall (fun rep => is_failure rep = true) (reps ++ [rep]) ->
  length (reps ++ [rep]) = max_retries c ->
  replies generate_content (model_name c) (make_prompt text target) (remote w)
    (reps ++ [rep]) r' ->
  translate_text generate_content c text target w
  = (Raise (kept_exception rep),
     World r' (files w)
       (trace w ++ failed_attempts c (make_prompt text target) 0 reps
        ++ [called (make_prompt text target)])).
Proof.
  intros Hb Hf Hlen Hr. unfold translate_text. rewrite Hb.
  apply replies_app in Hr. destruct Hr as (r1 & Hr1 & Hr2).
  inversion Hr2 as [|? ? r2 ? ? E Hr3]; subst. inversion Hr3; subst.
  apply Forall_app in Hf. destruct Hf as [Hf1 Hf2].
  inversion Hf2 as [|? ? Hrep _]; subst.
  rewrite length_app in Hlen. simpl in Hlen.
  replace (max_retries c) with (length reps + 1) at 1 by lia.
  destruct (retry_loop_failures _ reps 0 1 None w r1 Hr1 Hf1) as (last' & ->);
    [simpl; lia|].
  cbn [seq]. rewrite (retry_loop_failure _ _ _ _ _ rep r'); [| exact E | exact Hrep].
  replace (0 + length reps <? max_retries c - 1) with false
    by (symmetry; apply Nat.ltb_ge; lia).
  cbn [remote files trace]. now rewrite <- app_assoc.
Qed.

Lemma calls_app (t1 t2 : list event) : calls (t1 ++ t2) = calls t1 + calls t2.
Proof. unfold calls. now rewrite filter_app, length_app. Qed.

(** Every turn of the loop makes one call, and a wait makes none. *)
Lemma retry_loop_calls (prompt : pystr) (attempts : list nat) :
  forall (last : option exn) (w : world),
    calls (trace (snd (retry_loop generate_content c prompt attempts last w)))
    <= calls (trace w) + length attempts.
Proof.
  induction attempts as [|a rest IH]; intros last w.
  - simpl. destruct last; simpl; lia.
  - cbn [retry_loop]. unfold try_body, call_generate_content.
    destruct (generate_content (model_name c) prompt (remote w)) as [rep r1].
    set (w1 := World r1 (files w) (trace w ++ [called prompt])).
    assert (Hw1 : calls (trace w1) = calls (trace w) + 1)
      by (unfold w1; cbn [trace]; now rewrite calls_app).
    assert (Hraise : forall e,
      calls (trace (snd
        match except_clauses c a e with
        | Retry wait last0 =>
            retry_loop generate_content c prompt rest (Some last0) (sleep wait w1)
        | GiveUp e' => (Raise e', w1)
        end)) <= calls (trace w) + length (a :: rest)).
    { intros e. destruct (except_clauses c a e) as [wait last0|e'].
      - etransitivity; [apply IH|].
        unfold sleep. cbn [trace]. rewrite calls_app, Hw1.
        change (calls [Sleep wait]) with 0. simpl length. lia.
      - cbn [snd]. simpl length. lia. }
    destruct rep as [[[[t|]]|]|msg]; cbn [text]; try apply Hraise.
    destruct (truthy t); [|apply Hraise].
    cbn [snd]. simpl length. lia.
Qed.

(** What the loop returns is the strip of a text of the remote service. *)
Lemma retry_loop_returns (prompt : pystr) (attempts : list nat) :
  forall (last : option exn) (w w' : world) (v : pystr),
    retry_loop generate_content c prompt attempts last w = (Return v, w') ->
    exists t, truthy t = true /\ v = strip t.
Proof.
  induction attempts as [|a rest IH]; intros last w w' v H.
  - simpl in H. destruct last; discriminate.
  - cbn [retry_loop] in H. unfold try_body, call_generate_content in H.
    destruct (generate_content (model_name c) prompt (remote w)) as [rep r1].
    assert (Hraise : forall e w1,
      match except_clauses c a e with
      | Retry wait last0 =>
          retry_loop generate_content c prompt rest (Some last0) (sleep wait w1)
      | GiveUp e' => (Raise e', w1)
      end = (Return v, w') -> exists t, truthy t = true /\ v = strip t).
    { intros e w1 H1. destruct (except_clauses c a e); [|discriminate].
      eapply IH; eassumption. }
    destruct rep as [[[[t|]]|]|msg]; cbn [text] in H; eauto.
    destruct (truthy t) eqn:Et; eauto.
    injection H as <- _. now exists t.
Qed.

End GatewayFacts.

(** The client of [main] waits 1, 2 and 60 seconds; a client with a delay
    below zero, or with more than 1025 attempts, is not one whose back-offs
    can all be computed and slept. *)
Example valid_waits_examples :
  valid_waits main_client = true
  /\ valid_backoff (Client (str "gemini-3-flash-preview") 3 (-1) 60) = false
  /\ valid_backoff (Client (str "gemini-3-flash-preview") 1026 0 60) = false
  /\ valid_backoff (Client (str "gemini-3-flash-preview") 1025 0 60) = true
  /\ valid_rate_limit_wait (Client (str "gemini-3-flash-preview") 3 1 (-60))
     = false.
Proof. repeat split; vm_compute; reflexivity. Qed.

Section GatewayClaims.

Variables R F : Type.
Variable generate_content : pystr -> pystr -> R -> reply * R.
Variable c : GeminiAPIClient.

Local Abbreviation world := (world R F).
Local Abbreviation called prompt := (GenerateContent (model_name c) prompt).

Lemma generic_is_failure (rep : reply) :
  generic_failure rep = true -> is_failure rep = true.
Proof. unfold is_failure. now intros ->. Qed.

Lemma rate_limit_is_failure (rep : reply) :
  rate_limit_failure rep = true -> is_failure rep = true.
Proof. unfold is_failure. intros ->. apply orb_true_r. Qed.

Lemma generic_not_rate_limit (rep : reply) :
  generic_failure rep = true -> rate_limit_failure rep = false.
Proof.
  destruct rep as [r|msg]; simpl; [reflexivity|].
  now destruct (rate_limit_message msg).
Qed.

(** Generic failures wait [retry_delay * 2 ** attempt]. *)
Lemma failed_attempts_generic (prompt : pystr) (reps : list reply) :
  forall attempt,
    Forall (fun rep => generic_failure rep = true) reps ->
    failed_attempts c prompt attempt reps
    = flat_map
        (fun a => [called prompt;
                   Sleep (retry_delay c * inject_Z (2 ^ Z.of_nat a))])
        (seq attempt (length reps)).
Proof.
  induction reps as [|rep reps IH]; intros attempt H; [reflexivity|].
  inversion H as [|? ? Hrep H']; subst.
  cbn [failed_attempts length seq flat_map app]. rewrite IH by assumption.
  unfold wait_after. now rewrite (generic_not_rate_limit _ Hrep).
Qed.

(** Failures of rate wait [rate_limit_wait]. *)
Lemma failed_attempts_rate_limit (prompt : pystr) (reps : list reply) :
  forall attempt,
    Forall (fun rep => rate_limit_failure rep = true) reps ->
    failed_attempts c prompt attempt reps
    = concat (repeat [called prompt; Sleep (rate_limit_wait c)] (length reps)).
Proof.
  induction reps as [|rep reps IH]; intros attempt H; [reflexivity|].
  inversion H as [|? ? Hrep H']; subst.
  cbn [failed_attempts length repeat concat app]. rewrite IH by assumption.
  unfold wait_after. now rewrite Hrep.
Qed.

Lemma calls_failed_attempts (prompt : pystr) (reps : list reply) :
  forall attempt, calls (failed_attempts c prompt attempt reps) = length reps.
Proof.
  induction reps as [|rep reps IH]; intros attempt; [reflexivity|].
  cbn [failed_attempts]. unfold calls in *. cbn [filter is_call length].
  now rewrite IH.
Qed.

Lemma Forall_map_Fails (P : pystr -> bool) (Q : reply -> bool)
  (msgs : list pystr) :
  (forall msg, P msg = true -> Q (Fails msg) = true) ->
  Forall (fun msg => P msg = true) msgs ->
  Forall (fun rep => Q rep = true) (map Fails msgs).
Proof.
  intros HPQ H. induction H; simpl; constructor; auto.
Qed.

(** C3.  On an input that is not blank: the gateway makes at most
    [max_retries] calls; and for a client whose back-offs can be computed
    and slept ([valid_backoff]): when the calls fail with messages that tell
    of no limit of rate and then one succeeds within the budget, the
    stripped text of the success is returned, each failed attempt [a] having
    been followed by a wait of [retry_delay * 2 ** a] (so with [k] failures
    there are [k + 1] calls: three calls for two failures); and when
    [max_retries] calls fail so, the gateway raises an [APIError] that
    carries the message of the last failure. *)
Theorem transient_generic_retry (text target : pystr) (w : world) :
  blank text = false ->
  let prompt := make_prompt text target in
  let backoff_attempts k :=
    flat_map
      (fun a => [called prompt;
                 Sleep (retry_delay c * inject_Z (2 ^ Z.of_nat a))])
      (seq 0 k) in
  calls (trace (snd (translate_text generate_content c text target w)))
  <= calls (trace w) + max_retries c
  /\ (forall (msgs : list pystr) (t : pystr) (r' : R),
        valid_backoff c = true ->
        Forall (fun msg => negb (rate_limit_message msg) = true) msgs ->
        truthy t = true ->
        length msgs < max_retries c ->
        replies generate_content (model_name c) prompt (remote w)
          (map Fails msgs ++ [answers t]) r' ->
        translate_text generate_content c text target w
        = (Return (strip t),
           World r' (files w)
             (trace w ++ backoff_attempts (length msgs) ++ [called prompt]))
        /\ calls (trace (snd (translate_text generate_content c text target w)))
           = calls (trace w) + length msgs + 1)
  /\ (forall (msgs : list pystr) (msg : pystr) (r' : R),
        valid_backoff c = true ->
        Forall (fun msg => negb (rate_limit_message msg) = true)
          (msgs ++ [msg]) ->
        length (msgs ++ [msg]) = max_retries c ->
        replies generate_content (model_name c) prompt (remote w)
          (map Fails (msgs ++ [msg])) r' ->
        translate_text generate_content c text target w
        = (Raise (Exn APIError (str "API call failed: " ++ msg)),
           World r' (files w)
             (trace w ++ backoff_attempts (length msgs) ++ [called prompt]))).
Proof.
  intros Hb prompt backoff_attempts. split; [|split].
  - unfold translate_text. rewrite Hb.
    etransitivity; [apply retry_loop_calls|]. now rewrite length_seq.
  - intros msgs t r' _ Hg Ht Hlen Hr.
    assert (Hgen : Forall (fun rep => generic_failure rep = true)
                     (map Fails msgs))
      by (apply (Forall_map_Fails _ _ msgs (fun m H => H) Hg)).
    assert (E : translate_text generate_content c text target w
                = (Return (strip t),
                   World r' (files w)
                     (trace w ++ backoff_attempts (length msgs)
                      ++ [called prompt]))).
    { rewrite (translate_text_recovers _ _ generate_content c text target w
                 (map Fails msgs) t r'); auto.
      - rewrite failed_attempts_generic by assumption.
        now rewrite length_map.
      - eapply Forall_impl; [|exact Hgen]. apply generic_is_failure.
      - now rewrite length_map. }
    split; [exact E|]. rewrite E. cbn [snd trace].
    rewrite !calls_app. unfold backoff_attempts.
    rewrite <- (length_map Fails msgs).
    rewrite <- (failed_attempts_generic prompt (map Fails msgs) 0 Hgen).
    rewrite calls_failed_attempts. unfold calls. simpl. lia.
  - intros msgs msg r' _ Hg Hlen Hr.
    assert (Hgen : Forall (fun rep => generic_failure rep = true)
                     (map Fails (msgs ++ [msg])))
      by (apply (Forall_map_Fails _ _ _ (fun m H => H) Hg)).
    rewrite map_app in Hr, Hgen. cbn [map] in Hr, Hgen.
    rewrite (translate_text_exhausts _ _ generate_content c text target w
               (map Fails msgs) (Fails msg) r'); auto.
    + apply Forall_app in Hgen. destruct Hgen as [Hgen1 Hgen2].
      rewrite failed_attempts_generic by assumption.
      rewrite length_map. cbn [kept_exception].
      apply Forall_app in Hg. destruct Hg as [_ Hmsg].
      inversion Hmsg as [|? ? Hm _]; subst.
      apply negb_true_iff in Hm. now rewrite Hm.
    + eapply Forall_impl; [|exact Hgen]. apply generic_is_failure.
    + rewrite length_app, length_map. rewrite length_app in Hlen. exact Hlen.
Qed.

(** C4.  On an input that is not blank, a call that fails with a message
    that mentions (letter case apart) "quota", "rate limit", "429",
    "resource exhausted" or "resource_exhausted" is handled as a limit of
    rate: if the attempt is not the last one the gateway waits
    [rate_limit_wait], not the back-off, and goes on; on the last attempt it
    raises a [RateLimitError].  A call that fails with any other message is
    handled as generic: the wait is [retry_delay * 2 ** attempt], and the
    error of the last attempt is an [APIError] that is not a
    [RateLimitError].  The going on is stated for a wait that can be slept
    ([sleepable]) and, for the back-off, computed (an attempt below 1024).
    So, for a client whose fixed wait can be slept
    ([valid_rate_limit_wait]), failures of rate up to a success within the
    budget are separated by the fixed wait, and [max_retries] failures of
    rate end in a [RateLimitError]. *)
Theorem rate_limit_classification (text target : pystr) (w : world) :
  blank text = false ->
  let prompt := make_prompt text target in
  let fixed_wait_attempts k :=
    concat (repeat [called prompt; Sleep (rate_limit_wait c)] k) in
  (forall (attempt : nat) (rest : list nat) (last : option exn) (w0 : world)
          (msg : pystr) (r1 : R),
      generate_content (model_name c) prompt (remote w0) = (Fails msg, r1) ->
      let kept :=
        if rate_limit_message msg
        then Exn RateLimitError (str "API rate limit reached: " ++ msg)
        else Exn APIError (str "API call failed: " ++ msg) in
      let wait :=
        if rate_limit_message msg then rate_limit_wait c
        else (retry_delay c * inject_Z (2 ^ Z.of_nat attempt))%Q in
      isinstance kept RateLimitError = rate_limit_message msg
      /\ (attempt < max_retries c - 1 ->
          sleepable wait = true ->
          rate_limit_message msg = true \/ attempt < 1024 ->
          retry_loop generate_content c prompt (attempt :: rest) last w0
          = retry_loop generate_content c prompt rest (Some kept)
              (World r1 (files w0)
                 (trace w0 ++ [called prompt; Sleep wait])))
      /\ (max_retries c - 1 <= attempt ->
          retry_loop generate_content c prompt (attempt :: rest) last w0
          = (Raise kept, World r1 (files w0) (trace w0 ++ [called prompt]))))
  /\ (forall (msgs : list pystr) (t : pystr) (r' : R),
        valid_rate_limit_wait c = true ->
        Forall (fun msg => rate_limit_message msg = true) msgs ->
        truthy t = true ->
        length msgs < max_retries c ->
        replies generate_content (model_name c) prompt (remote w)
          (map Fails msgs ++ [answers t]) r' ->
        translate_text generate_content c text target w
        = (Return (strip t),
           World r' (files w)
             (trace w ++ fixed_wait_attempts (length msgs)
              ++ [called prompt])))
  /\ (forall (msgs : list pystr) (msg : pystr) (r' : R),
        valid_rate_limit_wait c = true ->
        Forall (fun msg => rate_limit_message msg = true) (msgs ++ [msg]) ->
        length (msgs ++ [msg]) = max_retries c ->
        replies generate_content (model_name c) prompt (remote w)
          (map Fails (msgs ++ [msg])) r' ->
        translate_text generate_content c text target w
        = (Raise (Exn RateLimitError (str "API rate limit reached: " ++ msg)),
           World r' (files w)
             (trace w ++ fixed_wait_attempts (length msgs)
              ++ [called prompt]))).
Proof.
  intros Hb prompt fixed_wait_attempts. split; [|split].
  - intros attempt rest last w0 msg r1 E kept wait.
    assert (Hf : is_failure (Fails msg) = true)
      by (unfold is_failure; simpl; now destruct (rate_limit_message msg)).
    pose proof (retry_loop_failure _ _ generate_content c prompt attempt rest
                  last w0 (Fails msg) r1 E Hf) as Hstep.
    change (kept_exception (Fails msg)) with kept in Hstep.
    change (wait_after c attempt (Fails msg)) with wait in Hstep.
    split; [|split].
    + unfold kept. now destruct (rate_limit_message msg).
    + intros Hlt _ _. rewrite Hstep.
      now replace (attempt <? max_retries c - 1) with true
        by (symmetry; apply Nat.ltb_lt; lia).
    + intros Hge. rewrite Hstep.
      now replace (attempt <? max_retries c - 1) with false
        by (symmetry; apply Nat.ltb_ge; lia).
  - intros msgs t r' _ Hg Ht Hlen Hr.
    assert (Hrl : Forall (fun rep => rate_limit_failure rep = true)
                    (map Fails msgs))
      by (apply (Forall_map_Fails _ _ msgs (fun m H => H) Hg)).
    rewrite (translate_text_recovers _ _ generate_content c text target w
               (map Fails msgs) t r'); auto.
    + rewrite failed_attempts_rate_limit by assumption.
      now rewrite length_map.
    + eapply Forall_impl; [|exact Hrl]. apply rate_limit_is_failure.
    + now rewrite length_map.
  - intros msgs msg r' _ Hg Hlen Hr.
    assert (Hrl : Forall (fun rep => rate_limit_failure rep = true)
                    (map Fails (msgs ++ [msg])))
      by (apply (Forall_map_Fails _ _ _ (fun m H => H) Hg)).
    rewrite map_app in Hr, Hrl. cbn [map] in Hr, Hrl.
    rewrite (translate_text_exhausts _ _ generate_content c text target w
               (map Fails msgs) (Fails msg) r'); auto.
    + apply Forall_app in Hrl. destruct Hrl as [Hrl1 Hrl2].
      rewrite failed_attempts_rate_limit by assumption.
      rewrite length_map. cbn [kept_exception].
      apply Forall_app in Hg. destruct Hg as [_ Hmsg].
      inversion Hmsg as [|? ? Hm _]; subst. now rewrite Hm.
    + eapply Forall_impl; [|exact Hrl]. apply rate_limit_is_failure.
    + rewrite length_app, length_map. rewrite length_app in Hlen. exact Hlen.
Qed.

(** C9.  On an input that is not blank, a call that returns no response,
    no text or an empty text makes the attempt raise the [APIError]
    "API returned empty response"; such an attempt counts and waits as a
    generic failure does: for a client whose back-offs can be computed and
    slept ([valid_backoff]), among generic failures (raised or empty) that
    are followed by a success within the budget each failed attempt [a] is
    followed by a wait of [retry_delay * 2 ** a], and when the budget is
    used up by generic failures of which the last is an empty response the
    gateway raises that [APIError], which is not a [RateLimitError]. *)
Theorem empty_response_is_generic (text target : pystr) (w : world) :
  blank text = false ->
  let prompt := make_prompt text target in
  let empty_error := Exn APIError (str "API returned empty response") in
  let backoff_attempts k :=
    flat_map
      (fun a => [called prompt;
                 Sleep (retry_delay c * inject_Z (2 ^ Z.of_nat a))])
      (seq 0 k) in
  (forall (w0 : world) (rep : reply) (r1 : R),
      generate_content (model_name c) prompt (remote w0) = (rep, r1) ->
      empty_response rep = true ->
      try_body generate_content c prompt w0
      = (Raise empty_error,
         World r1 (files w0) (trace w0 ++ [called prompt])))
  /\ isinstance empty_error RateLimitError = false
  /\ (forall (reps : list reply) (t : pystr) (r' : R),
        valid_backoff c = true ->
        Forall (fun rep => generic_failure rep = true) reps ->
        truthy t = true ->
        length reps < max_retries c ->
        replies generate_content (model_name c) prompt (remote w)
          (reps ++ [answers t]) r' ->
        translate_text generate_content c text target w
        = (Return (strip t),
           World r' (files w)
             (trace w ++ backoff_attempts (length reps) ++ [called prompt])))
  /\ (forall (reps : list reply) (rep : reply) (r' : R),
        valid_backoff c = true ->
        Forall (fun rep => generic_failure rep = true) reps ->
        empty_response rep = true ->
        length (reps ++ [rep]) = max_retries c ->
        replies generate_content (model_name c) prompt (remote w)
          (reps ++ [rep]) r' ->
        translate_text generate_content c text target w
        = (Raise empty_error,
           World r' (files w)
             (trace w ++ backoff_attempts (length reps) ++ [called prompt]))).
Proof.
  intros Hb prompt empty_error backoff_attempts.
  split; [|split; [reflexivity|split]].
  - intros w0 rep r1 E He. exact (try_body_empty _ _ _ _ prompt w0 rep r1 E He).
  - intros reps t r' _ Hg Ht Hlen Hr.
    rewrite (translate_text_recovers _ _ generate_content c text target w
               reps t r'); auto.
    + now rewrite failed_attempts_generic by assumption.
    + eapply Forall_impl; [|exact Hg]. apply generic_is_failure.
  - intros reps rep r' _ Hg He Hlen Hr.
    assert (Hrep : generic_failure rep = true)
      by (destruct rep; [exact He | discriminate]).
    rewrite (translate_text_exhausts _ _ generate_content c text target w
               reps rep r'); auto.
    + rewrite failed_attempts_generic by assumption.
      destruct rep; [reflexivity | discriminate].
    + apply Forall_app. split.
      * eapply Forall_impl; [|exact Hg]. apply generic_is_failure.
      * constructor; [now apply generic_is_failure | constructor].
Qed.

(** C10.  On an input that is not blank: when the first call succeeds with
    a text that is not empty, the gateway returns that text stripped; so it
    does when a call succeeds after failed attempts, within the budget, for
    a client whose waits can be computed and slept ([valid_waits]); and
    whatever the gateway returns is the strip of such a text, so it neither
    starts nor ends with white space, and in particular it does not end with
    a line feed. *)
Theorem translate_text_strips (text target : pystr) (w : world) :
  blank text = false ->
  (forall (t : pystr) (r' : R),
      truthy t = true ->
      0 < max_retries c ->
      generate_content (model_name c) (make_prompt text target) (remote w)
      = (answers t, r') ->
      fst (translate_text generate_content c text target w)
      = Return (strip t))
  /\ (forall (reps : list reply) (t : pystr) (r' : R),
      valid_waits c = true ->
      Forall (fun rep => is_failure rep = true) reps ->
      truthy t = true ->
      length reps < max_retries c ->
      replies generate_content (model_name c) (make_prompt text target)
        (remote w) (reps ++ [answers t]) r' ->
      fst (translate_text generate_content c text target w)
      = Return (strip t))
  /\ (forall (v : pystr) (w' : world),
        translate_text generate_content c text target w = (Return v, w') ->
        (exists t, truthy t = true /\ v = strip t)
        /\ (forall ch, hd_error v = Some ch -> is_space ch = false)
        /\ (forall ch, v <> [] -> is_space (last v ch) = false)
        /\ (forall u, v <> u ++ [LF])).
Proof.
  intros Hb. split; [|split].
  - intros t r' Ht Hlen E.
    rewrite (translate_text_recovers _ _ generate_content c text target w
               [] t r'); auto.
    econstructor; [exact E | constructor].
  - intros reps t r' _ Hf Ht Hlen Hr.
    now rewrite (translate_text_recovers _ _ generate_content c text target w
                   reps t r').
  - intros v w' H. unfold translate_text in H. rewrite Hb in H.
    apply retry_loop_returns in H. destruct H as (t & Ht & ->).
    split; [now exists t|]. split; [apply strip_head|].
    assert (Hlast : forall ch, strip t <> [] ->
                               is_space (last (strip t) ch) = false).
    { intros ch Hne. now apply (strip_last t _ ch). }
    split; [exact Hlast|].
    intros u E.
    assert (Hne : strip t <> []) by (rewrite E; now destruct u).
    specialize (Hlast LF Hne). rewrite E, last_last in Hlast. discriminate.
Qed.

(** C6.  On an input that is empty or made of white space only, the
    gateway and the pipeline (whatever its client is) return the input as it
    is and leave the world as it is: no call is made. *)
Theorem blank_input_is_returned (text target : pystr) (w : world)
  (client_translate_text : pystr -> pystr -> world -> result pystr * world) :
  Forall (fun ch => is_space ch = true) text ->
  translate_text generate_content c text target w = (Return text, w)
  /\ translate_markdown client_translate_text text w = (Return text, w).
Proof.
  intros H. apply blank_spec in H.
  unfold translate_text, translate_markdown. now rewrite H.
Qed.

End GatewayClaims.

(** The unit test [test_translate_text_retry_on_api_error]: two failures,
    then a success; three calls, and waits of one and of two seconds. *)
Lemma transient_generic_retry_witness :
  let call := GenerateContent (str "gemini-3-flash-preview")
                (make_prompt (str "Hello") (str "Japanese")) in
  translate_text scripted main_client (str "Hello") (str "Japanese")
    (scripted_world [Fails (str "Temporary error");
                     Fails (str "Temporary error");
                     answers (str "Success")])
  = (Return (str "Success"),
     World [] tt [call; Sleep 1; call; Sleep 2; call]).
Proof.
  destruct (transient_generic_retry (list reply) unit scripted main_client
              (str "Hello") (str "Japanese")
              (scripted_world [Fails (str "Temporary error");
                               Fails (str "Temporary error");
                               answers (str "Success")]) eq_refl)
    as (_ & H & _).
  destruct (H [str "Temporary error"; str "Temporary error"] (str "Success") [])
    as [E _].
  - reflexivity.
  - repeat constructor.
  - reflexivity.
  - vm_compute. lia.
  - repeat econstructor.
  - exact E.
Defined.

(** The unit test [test_translate_text_rate_limit_exhausted], with the
    budget of [main]: three failures of quota; two waits of sixty seconds,
    and a [RateLimitError]. *)
Lemma rate_limit_classification_witness :
  let call := GenerateContent (str "gemini-3-flash-preview")
                (make_prompt (str "Hello") (str "Japanese")) in
  translate_text scripted main_client (str "Hello") (str "Japanese")
    (scripted_world [Fails (str "Quota exceeded");
                     Fails (str "HTTP 429 error");
                     Fails (str "RESOURCE_EXHAUSTED")])
  = (Raise (Exn RateLimitError
              (str "API rate limit reached: RESOURCE_EXHAUSTED")),
     World [] tt [call; Sleep 60; call; Sleep 60; call]).
Proof.
  destruct (rate_limit_classification (list reply) unit scripted main_client
              (str "Hello") (str "Japanese")
              (scripted_world [Fails (str "Quota exceeded");
                               Fails (str "HTTP 429 error");
                               Fails (str "RESOURCE_EXHAUSTED")]) eq_refl)
    as (_ & _ & H).
  apply (H [str "Quota exceeded"; str "HTTP 429 error"]
           (str "RESOURCE_EXHAUSTED") []).
  - reflexivity.
  - repeat constructor.
  - reflexivity.
  - repeat econstructor.
Defined.

(** The unit test [test_translate_text_empty_response]: every call returns
    an empty text. *)
Lemma empty_response_is_generic_witness :
  let call := GenerateContent (str "gemini-3-flash-preview")
                (make_prompt (str "Hello") (str "Japanese")) in
  translate_text scripted main_client (str "Hello") (str "Japanese")
    (scripted_world [answers (str ""); Responds None;
                     Responds (Some (Response None))])
  = (Raise (Exn APIError (str "API returned empty response")),
     World [] tt [call; Sleep 1; call; Sleep 2; call]).
Proof.
  destruct (empty_response_is_generic (list reply) unit scripted main_client
              (str "Hello") (str "Japanese")
              (scripted_world [answers (str ""); Responds None;
                               Responds (Some (Response None))]) eq_refl)
    as (_ & _ & _ & H).
  apply (H [answers (str ""); Responds None] (Responds (Some (Response None)))
           []).
  - reflexivity.
  - repeat constructor.
  - reflexivity.
  - reflexivity.
  - repeat econstructor.
Defined.

(** A translation that comes back with white space around it. *)
Lemma translate_text_strips_witness :
  fst (translate_text scripted main_client (str "Hello") (str "Japanese")
         (scripted_world [answers (str "  Bonjour " ++ [LF])]))
  = Return (str "Bonjour").
Proof.
  destruct (translate_text_strips (list reply) unit scripted main_client
              (str "Hello") (str "Japanese")
              (scripted_world [answers (str "  Bonjour " ++ [LF])]) eq_refl)
    as (_ & H & _).
  apply (H [] (str "  Bonjour " ++ [LF]) []).
  - reflexivity.
  - constructor.
  - reflexivity.
  - vm_compute. lia.
  - repeat econstructor.
Defined.

(** The unit tests [test_translate_whitespace_only] and
    [test_translate_markdown_empty_content]; the client of the pipeline is
    one that would fail. *)
Lemma blank_input_is_returned_witness :
  translate_text scripted main_client (str "   ") (str "Japanese")
    (scripted_world [Fails (str "not to be called")])
  = (Return (str "   "), scripted_world [Fails (str "not to be called")])
  /\ translate_markdown refusing_translate_text (str "   ")
       (scripted_world [Fails (str "not to be called")])
     = (Return (str "   "), scripted_world [Fails (str "not to be called")]).
Proof.
  apply (blank_input_is_returned (list reply) unit scripted main_client
           (str "   ") (str "Japanese")
           (scripted_world [Fails (str "not to be called")])
           refusing_translate_text).
  repeat constructor.
Defined.

(** ** The batch *)

Section BatchFacts.

Variables R F : Type.
Variable client_translate_text :
  pystr -> pystr -> world R F -> result pystr * world R F.
Variable find_markdown_files : F -> result (list path).
Variable read_file : path -> F -> result pystr.
Variable write_file : path -> pystr -> F -> result unit * F.

Local Abbreviation world := (world R F).
Local Abbreviation single_file :=
  (_translate_single_file client_translate_text read_file write_file).
Local Abbreviation batch :=
  (translate_files client_translate_text read_file write_file).

(** The directory part of an output path: the output directory, then the
    directories of the source file. *)
Lemma output_directory (f : path) (output_dir_name : pystr) :
  f <> [] ->
  parent (create_output_path f output_dir_name) = output_dir_name :: parent f.
Proof. destruct f; [congruence | reflexivity]. Qed.

(** One document: its result names it, and tells what became of it. *)
Lemma single_file_outcome (f : path) (output_dir_name : pystr) (w : world) :
  outcome client_translate_text read_file write_file output_dir_name f w
    (fst (single_file f output_dir_name w)).
Proof.
  unfold _translate_single_file, do_read, do_write.
  destruct (read_file f (files w)) as [content|e] eqn:Er.
  - destruct (translate_markdown client_translate_text content w)
      as [[translated|e] w1] eqn:Et.
    + destruct (translate_stem client_translate_text (stem f) w1)
        as [base w2] eqn:Es.
      destruct (write_file
                  (parent (create_output_path f output_dir_name)
                   ++ [base ++ str ".md"]) translated (files w2))
        as [[u|e] fs] eqn:Ew; cbn [fst].
      * eapply all_succeeded; eassumption.
      * eapply write_raised; eassumption.
    + cbn [fst]. eapply translation_raised; eassumption.
  - cbn [fst]. now apply read_raised.
Qed.

Lemma outcome_source_file (f : path) (output_dir_name : pystr) (w : world)
  (r : TranslationResult) :
  outcome client_translate_text read_file write_file output_dir_name f w r ->
  source_file r = f.
Proof. now destruct 1. Qed.

(** The loop appends to the results it is given. *)
Lemma batch_results (fs : list path) (output_dir_name : pystr) :
  forall (results : list TranslationResult) (w : world),
    batch fs output_dir_name results w
    = (results ++ fst (batch fs output_dir_name [] w),
       snd (batch fs output_dir_name [] w)).
Proof.
  induction fs as [|f fs IH]; intros results w; cbn [translate_files].
  - now rewrite app_nil_r.
  - destruct (single_file f output_dir_name w) as [r w1].
    rewrite (IH (results ++ [r])), (IH ([] ++ [r])).
    cbn [fst snd]. now rewrite <- app_assoc.
Qed.

Lemma batch_cons (f : path) (fs : list path) (output_dir_name : pystr)
  (w : world) :
  batch (f :: fs) output_dir_name [] w
  = (fst (single_file f output_dir_name w)
     :: fst (batch fs output_dir_name [] (snd (single_file f output_dir_name w))),
     snd (batch fs output_dir_name [] (snd (single_file f output_dir_name w)))).
Proof.
  cbn [translate_files].
  destruct (single_file f output_dir_name w) as [r w1].
  now rewrite batch_results.
Qed.

Lemma batch_app (fs1 fs2 : list path) (output_dir_name : pystr) :
  forall w : world,
    batch (fs1 ++ fs2) output_dir_name [] w
    = (fst (batch fs1 output_dir_name [] w)
       ++ fst (batch fs2 output_dir_name []
                 (snd (batch fs1 output_dir_name [] w))),
       snd (batch fs2 output_dir_name []
              (snd (batch fs1 output_dir_name [] w)))).
Proof.
  induction fs1 as [|f fs1 IH]; intros w.
  - simpl. now destruct (batch fs2 output_dir_name [] w).
  - change ((f :: fs1) ++ fs2) with (f :: (fs1 ++ fs2)).
    rewrite (batch_cons f (fs1 ++ fs2)), (batch_cons f fs1), IH. reflexivity.
Qed.

Lemma batch_length (fs : list path) (output_dir_name : pystr) :
  forall w : world,
    length (fst (batch fs output_dir_name [] w)) = length fs.
Proof.
  induction fs as [|f fs IH]; intros w; [reflexivity|].
  rewrite batch_cons. cbn [fst length]. now rewrite IH.
Qed.

Lemma translate_directory_batch (output_dir_name : pystr) (w : world)
  (markdown_files : list path) :
  find_markdown_files (files w) = Return markdown_files ->
  translate_directory client_translate_text find_markdown_files read_file
    write_file output_dir_name w
  = batch markdown_files output_dir_name [] w.
Proof.
  intros E. unfold translate_directory. rewrite E.
  now destruct markdown_files.
Qed.

(** C2.  When the enumeration gives K documents, the batch returns K
    results, one for each document and in the order of the documents.  The
    result of the document at the place [i] is what became of that document
    when it was taken up in the world left by the [i] documents before it,
    whatever became of those: it is marked failed, with the message of the
    exception, when its read, its translation or its write raised, and
    marked successful when none of them did. *)
Theorem failure_isolation (output_dir_name : pystr) (w : world)
  (markdown_files : list path) :
  find_markdown_files (files w) = Return markdown_files ->
  let results :=
    fst (translate_directory client_translate_text find_markdown_files
           read_file write_file output_dir_name w) in
  length results = length markdown_files
  /\ map source_file results = markdown_files
  /\ forall (i : nat) (f : path),
      nth_error markdown_files i = Some f ->
      exists r,
        nth_error results i = Some r
        /\ outcome client_translate_text read_file write_file
             output_dir_name f
             (snd (batch (firstn i markdown_files) output_dir_name [] w)) r.
Proof.
  intros E results. unfold results.
  rewrite (translate_directory_batch _ _ _ E). clear E results.
  split; [apply batch_length|]. split.
  - revert w. induction markdown_files as [|f fs IH]; intros w; [reflexivity|].
    rewrite batch_cons. cbn [fst map]. rewrite IH. f_equal.
    eapply outcome_source_file, single_file_outcome.
  - intros i f Hi.
    destruct (nth_error_split _ _ Hi) as (fs1 & fs2 & Efs & Hlen).
    assert (Ei : firstn i markdown_files = fs1).
    { rewrite Efs, <- Hlen. rewrite firstn_app, Nat.sub_diag, firstn_all.
      simpl. apply app_nil_r. }
    rewrite Ei. clear Ei Hi. subst markdown_files.
    rewrite batch_app, batch_cons. cbn [fst].
    eexists. split.
    + rewrite nth_error_app2 by (rewrite batch_length; lia).
      rewrite batch_length, Hlen, Nat.sub_diag. reflexivity.
    + apply single_file_outcome.
Qed.

Lemma replace_char (a b : ascii) (s : pystr) :
  replace [a] [b] s = map (fun ch => if eqc ch a then b else ch) s.
Proof.
  unfold replace. induction s as [|ch s IH]; [reflexivity|].
  cbn [replace_from startswith map length Nat.sub app].
  replace (eqc a ch) with (eqc ch a) by apply Ascii.eqb_sym.
  destruct (eqc ch a).
  - cbn [andb]. destruct s; cbn [startswith]; now rewrite IH.
  - cbn [andb]. now rewrite IH.
Qed.

(** The three replacements of the orchestrator make the sanitized name. *)
Lemma replace_unsafe (t : pystr) :
  replace (str ":") (str "_")
    (replace (str "\") (str "_") (replace (str "/") (str "_") t))
  = sanitized t.
Proof.
  change (str ":") with [":"%char]. change (str "_") with ["_"%char].
  change (str "\") with ["\"%char]. change (str "/") with ["/"%char].
  rewrite !replace_char, !map_map. unfold sanitized, unsafe_char.
  apply map_ext. intros ch.
  destruct (eqc ch "/") eqn:E1; [reflexivity|].
  destruct (eqc ch "\") eqn:E2; [reflexivity|].
  reflexivity.
Qed.

Lemma sanitized_safe (t : pystr) :
  Forall (fun ch => unsafe_char ch = false) (sanitized t).
Proof.
  unfold sanitized. induction t as [|ch t IH]; simpl; constructor; auto.
  destruct (unsafe_char ch) eqn:E; [reflexivity | exact E].
Qed.

(** C8.  For a document whose read and whose translation succeed: when the
    translation of its base name raises, whatever the exception, the
    document is written under its own base name, and if that write succeeds
    the document is marked successful; when the translation of the base name
    returns a name, the document is written under that name with every '/',
    '\' and ':' replaced by '_' (the name written has none of the three).
    The base name goes to the client as it is. *)
Theorem base_name_fallback (f : path) (output_dir_name : pystr) (w : world)
  (content translated : pystr) (w1 : world) :
  read_file f (files w) = Return content ->
  translate_markdown client_translate_text content w = (Return translated, w1) ->
  (forall (e : exn) (w2 : world) (u : unit) (fs : F),
      client_translate_text (stem f) (str "Japanese") w1 = (Raise e, w2) ->
      write_file
        (parent (create_output_path f output_dir_name)
         ++ [stem f ++ str ".md"]) translated (files w2) = (Return u, fs) ->
      single_file f output_dir_name w
      = (Result f true None, World (remote w2) fs (trace w2)))
  /\ (forall (t : pystr) (w2 : world) (r : result unit) (fs : F),
        client_translate_text (stem f) (str "Japanese") w1 = (Return t, w2) ->
        write_file
          (parent (create_output_path f output_dir_name)
           ++ [sanitized t ++ str ".md"]) translated (files w2) = (r, fs) ->
        Forall (fun ch => unsafe_char ch = false) (sanitized t)
        /\ single_file f output_dir_name w
           = (match r with
              | Return _ => Result f true None
              | Raise e => Result f false (Some (message e))
              end, World (remote w2) fs (trace w2))).
Proof.
  intros Er Et. split.
  - intros e w2 u fs Es Ew.
    unfold _translate_single_file, do_read, do_write, translate_stem.
    rewrite Er, Et, Es, Ew. reflexivity.
  - intros t w2 r fs Es Ew. split; [apply sanitized_safe|].
    unfold _translate_single_file, do_read, do_write, translate_stem.
    rewrite Er, Et, Es, replace_unsafe, Ew. now destruct r.
Qed.

End BatchFacts.

(** The integration scenario of three documents of which the second fails:
    three results, in order, and the failure of the second with its message. *)
Lemma failure_isolation_witness :
  let results :=
    fst (translate_directory Mem.flaky_translate_text Mem.find_markdown_files
           Mem.read_file Mem.write_file (str "jp") three_files_world) in
  length results = 3
  /\ map source_file results
     = [[str "file1.md"]; [str "file2.md"]; [str "file3.md"]]
  /\ exists r,
      nth_error results 1 = Some r
      /\ outcome Mem.flaky_translate_text Mem.read_file Mem.write_file
           (str "jp") [str "file2.md"]
           (snd (translate_files Mem.flaky_translate_text Mem.read_file
                   Mem.write_file [[str "file1.md"]] (str "jp") []
                   three_files_world)) r.
Proof.
  destruct (failure_isolation (list pystr) Mem.fs Mem.flaky_translate_text
              Mem.find_markdown_files Mem.read_file Mem.write_file (str "jp")
              three_files_world
              [[str "file1.md"]; [str "file2.md"]; [str "file3.md"]] eq_refl)
    as (H1 & H2 & H3).
  split; [exact H1|]. split; [exact H2|].
  exact (H3 1 [str "file2.md"] eq_refl).
Defined.

Example three_files_results :
  fst (translate_directory Mem.flaky_translate_text Mem.find_markdown_files
         Mem.read_file Mem.write_file (str "jp") three_files_world)
  = [Result [str "file1.md"] true None;
     Result [str "file2.md"] false
       (Some (str "Failed to translate markdown: API failed for file 2"));
     Result [str "file3.md"] true None].
Proof. vm_compute. reflexivity. Qed.

(** A document whose name the client cannot translate: it is written under
    its own name, in the directory that mirrors its own. *)
Lemma base_name_fallback_witness :
  _translate_single_file Mem.nameless_translate_text Mem.read_file
    Mem.write_file [str "docs"; str "guide.md"] (str "jp") guide_world
  = (Result [str "docs"; str "guide.md"] true None,
     World [str "# Guide"; str "guide"]
       [([str "docs"; str "guide.md"], str "# Guide");
        ([str "jp"; str "docs"; str "guide.md"], str "[T] # Guide")] []).
Proof.
  destruct (base_name_fallback (list pystr) Mem.fs Mem.nameless_translate_text
              Mem.read_file Mem.write_file [str "docs"; str "guide.md"]
              (str "jp") guide_world (str "# Guide") (str "[T] # Guide")
              (World [str "# Guide"] (files guide_world) [])
              eq_refl eq_refl) as (H & _).
  apply (H (Exn APIError (str "no name"))
           (World [str "# Guide"; str "guide"] (files guide_world) []) tt).
  - reflexivity.
  - reflexivity.
Defined.

(** ** The exit code *)

Section MainFacts.

Variables R F : Type.
Variable generate_content : pystr -> pystr -> R -> reply * R.
Variable find_markdown_files : F -> result (list path).
Variable read_file : path -> F -> result pystr.
Variable write_file : path -> pystr -> F -> result unit * F.
Variable validate_directory : F -> result unit.
Variable load_api_key_from_env : F -> result pystr.
Variable genai_Client : pystr -> result unit.

Local Abbreviation world := (world R F).
Local Abbreviation run_main :=
  (main generate_content find_markdown_files read_file write_file
     validate_directory load_api_key_from_env genai_Client).

Lemma exit_code_failed (results : list TranslationResult) :
  (exists r, In r results /\ success r = false) -> exit_code results = 1.
Proof.
  intros (r & Hin & Hr). destruct results as [|r0 results]; [destruct Hin|].
  unfold exit_code.
  assert (Hf : In r (filter (fun r => negb (success r)) (r0 :: results)))
    by (apply filter_In; split; [exact Hin | now rewrite Hr]).
  destruct (filter (fun r => negb (success r)) (r0 :: results));
    [destruct Hf | reflexivity].
Qed.

(** [main], once the directory, the key and the client are there. *)
Lemma main_batch (w : world) (u : unit) (api_key : pystr)
  (api_client : GeminiAPIClient) :
  validate_directory (files w) = Return u ->
  load_api_key_from_env (files w) = Return api_key ->
  GeminiAPIClient_init genai_Client api_key (str "gemini-3-flash-preview")
    3 1 60 = Return api_client ->
  fst (run_main w)
  = exit_code
      (fst (translate_directory (translate_text generate_content api_client)
              find_markdown_files read_file write_file (str "jp") w)).
Proof.
  intros Ev Ek Ec. unfold main. rewrite Ev, Ek, Ec.
  now destruct (translate_directory _ _ _ _ _ w).
Qed.

(** C7.  When the enumeration raises, or gives no document, the batch
    returns no result (and leaves the world as it is), and [main], which got
    as far as the batch, exits with 0.  When the results are not empty and
    one of them is marked failed, the exit code is 1, whatever the other
    results are. *)
Theorem exit_code_of_batch (w : world) (u : unit) (api_key : pystr)
  (api_client : GeminiAPIClient) :
  validate_directory (files w) = Return u ->
  load_api_key_from_env (files w) = Return api_key ->
  GeminiAPIClient_init genai_Client api_key (str "gemini-3-flash-preview")
    3 1 60 = Return api_client ->
  let results :=
    fst (translate_directory (translate_text generate_content api_client)
           find_markdown_files read_file write_file (str "jp") w) in
  ((forall client output_dir_name,
       (exists e, find_markdown_files (files w) = Raise e)
       \/ find_markdown_files (files w) = Return [] ->
       translate_directory client find_markdown_files read_file write_file
         output_dir_name w = ([], w))
   /\ ((exists e, find_markdown_files (files w) = Raise e)
       \/ find_markdown_files (files w) = Return [] ->
       run_main w = (0, w)))
  /\ (forall rs, rs <> [] -> (exists r, In r rs /\ success r = false) ->
                 exit_code rs = 1)
  /\ ((exists r, In r results /\ success r = false) -> fst (run_main w) = 1).
Proof.
  intros Ev Ek Ec results.
  assert (Hempty : forall client output_dir_name,
             (exists e, find_markdown_files (files w) = Raise e)
             \/ find_markdown_files (files w) = Return [] ->
             translate_directory client find_markdown_files read_file
               write_file output_dir_name w = ([], w)).
  { intros client out [(e & E)|E]; unfold translate_directory; now rewrite E. }
  split; [split|split].
  - exact Hempty.
  - intros H. unfold main. rewrite Ev, Ek, Ec.
    now rewrite (Hempty _ _ H).
  - intros rs _. apply exit_code_failed.
  - intros H. rewrite (main_batch w u api_key api_client Ev Ek Ec).
    now apply exit_code_failed.
Qed.

End MainFacts.

(** The integration test [test_translation_error_propagation] under [main]:
    the one document fails, and the exit code is 1. *)
Lemma exit_code_of_batch_witness :
  fst (main scripted Mem.find_markdown_files Mem.read_file Mem.write_file
         always_valid test_key accepts_key failing_world) = 1.
Proof.
  destruct (exit_code_of_batch (list reply) Mem.fs scripted
              Mem.find_markdown_files Mem.read_file Mem.write_file
              always_valid test_key accepts_key failing_world tt
              (str "test_key") main_client eq_refl eq_refl eq_refl)
    as (_ & _ & H).
  apply H. vm_compute. eexists. split; [left; reflexivity | reflexivity].
Defined.

(** The scenario of the empty source directory: no result, exit code 0. *)
Example empty_directory_exit_code :
  main scripted Mem.find_markdown_files Mem.read_file Mem.write_file
    always_valid test_key accepts_key empty_world = (0, empty_world).
Proof. vm_compute. reflexivity. Qed.

(** ** The README example *)

(** C5 (as amended).  On a source directory that holds [README.md] with the
    content "# Hello\n\nBody[^1].\n\n[^1]: Note." and with a client that
    returns "[T] " + text, the batch marks the document successful and
    writes one file, [jp/[T] README.md]: the name is the translation of the
    base name of the file, not of its heading.  The content written is
    "[T] # Hello\n\nBody[^1].\n\n[^1]: Note.".  The client is called twice:
    with the shielded content, in which the line of the footnote is
    replaced by [__FOOTNOTE_0__], and with the base name. *)
Theorem readme_example :
  translate_directory Mem.stub_translate_text Mem.find_markdown_files
    Mem.read_file Mem.write_file (str "jp") readme_world
  = ([Result [str "README.md"] true None],
     World
       [str "# Hello" ++ [LF; LF] ++ str "Body[^1]." ++ [LF; LF]
        ++ str "__FOOTNOTE_0__";
        str "README"]
       [([str "README.md"], hello_content);
        ([str "jp"; str "[T] README.md"], str "[T] " ++ hello_content)]
       []).
Proof. vm_compute. reflexivity. Qed.

(** C5 (as stated) fails: after the batch there is no file
    [jp/[T] Hello.md]; the output is [jp/[T] README.md]. *)
Lemma readme_example_no_hello_file :
  let after :=
    files (snd (translate_directory Mem.stub_translate_text
                  Mem.find_markdown_files Mem.read_file Mem.write_file
                  (str "jp") readme_world)) in
  Mem.lookup [str "jp"; str "[T] Hello.md"] after = None
  /\ Mem.lookup [str "jp"; str "[T] README.md"] after
     = Some (str "[T] " ++ hello_content).
Proof. vm_compute. split; reflexivity. Qed.

(* ================================================================== *)
(** * More properties *)

(** ** The shielding transform, further *)

Section ShieldMore.

Import Shield.

Lemma split_lines_app (l s : pystr) :
  ~ In LF l -> split_lines (l ++ LF :: s) = l :: split_lines s.
Proof.
  induction l as [|c l IH]; intros H.
  - reflexivity.
  - cbn [app split_lines]. destruct (eqc c LF) eqn:E.
    + apply eqc_true in E. subst c. elim H. now left.
    + rewrite IH; [reflexivity|]. intros Hin. apply H. now right.
Qed.

Lemma split_lines_line (l : pystr) : ~ In LF l -> split_lines l = [l].
Proof.
  induction l as [|c l IH]; intros H; [reflexivity|].
  simpl. destruct (eqc c LF) eqn:E.
  - apply eqc_true in E. subst c. elim H. now left.
  - rewrite IH; [reflexivity|]. intros Hin. apply H. now right.
Qed.

Lemma split_join (lines : list pystr) :
  lines <> [] ->
  Forall (fun l => ~ In LF l) lines ->
  split_lines (join_lines lines) = lines.
Proof.
  induction lines as [|l lines IH]; [congruence|]. intros _ H.
  inversion H as [|? ? Hl Hrest]; subst.
  destruct lines as [|l' lines'].
  - simpl. now apply split_lines_line.
  - rewrite join_cons by discriminate.
    rewrite split_lines_app by assumption.
    rewrite IH; [reflexivity | discriminate | assumption].
Qed.

Lemma split_lines_no_LF (s : pystr) :
  Forall (fun l => ~ In LF l) (split_lines s).
Proof.
  induction s as [|c s IH]; simpl.
  - constructor; [intros [] | constructor].
  - destruct (eqc c LF) eqn:E.
    + constructor; [intros [] | exact IH].
    + apply eqc_false in E.
      destruct (split_lines s) as [|l ls].
      * constructor; [|constructor]. intros [H|[]]. congruence.
      * inversion IH as [|? ? Hl Hls]; subst.
        constructor; [|exact Hls]. intros [H|H]; [congruence | tauto].
Qed.

(** The strip of a string that starts and ends with a character that is
    not white space is the string. *)
Lemma strip_fixed (a b : ascii) (s : pystr) :
  is_space a = false -> is_space b = false ->
  strip (a :: s ++ [b]) = a :: s ++ [b].
Proof.
  intros Ha Hb.
  assert (L1 : lstrip (a :: s ++ [b]) = a :: s ++ [b])
    by (cbn [lstrip]; now rewrite Ha).
  assert (L2 : lstrip (rev (a :: s ++ [b])) = rev (a :: s ++ [b])).
  { change (a :: s ++ [b]) with ((a :: s) ++ [b]).
    rewrite rev_app_distr. change (rev [b]) with [b].
    cbn [app lstrip]. now rewrite Hb. }
  unfold strip, rstrip. now rewrite L1, L2, rev_involutive.
Qed.

Lemma placeholder_is_no_definition (i : nat) :
  footnote_def_match (strip (placeholder i)) = false.
Proof.
  unfold placeholder.
  replace (str "__FOOTNOTE_" ++ str_of_nat i ++ str "__")
    with ("_"%char :: (str "_FOOTNOTE_" ++ str_of_nat i ++ str "_") ++ ["_"%char])
    by (cbn [str list_ascii_of_string app]; rewrite <- !app_assoc; reflexivity).
  rewrite strip_fixed by reflexivity. reflexivity.
Qed.

Lemma collect_continuation_plain (lines more remaining : list pystr) :
  collect_continuation lines = (more, remaining) ->
  Forall (fun l => footnote_def_match (strip l) = false) more.
Proof.
  revert more remaining.
  induction lines as [|l lines IH]; intros more remaining H;
    cbn [collect_continuation] in H.
  - injection H as <- <-. constructor.
  - destruct (negb (truthy (strip l))); [injection H as <- <-; constructor|].
    destruct (footnote_def_match (strip l)) eqn:Ed;
      [injection H as <- <-; constructor|].
    destruct (startswith (str "    ") l || startswith [TAB] l);
      [|injection H as <- <-; constructor].
    destruct (collect_continuation lines) as [m r].
    injection H as <- <-. constructor; [exact Ed|]. now apply (IH m r).
Qed.

(** What the loop does to its two lists. *)
Lemma preprocess_loop_facts (fuel : nat) :
  forall lines processed_lines footnotes : list pystr,
    length lines <= fuel ->
    Forall (fun l : pystr => ~ In LF l) lines ->
    let out := preprocess_loop fuel lines processed_lines footnotes in
    (exists processed',
        fst out = processed_lines ++ processed'
        /\ Forall (fun l : pystr => ~ In LF l
                            /\ footnote_def_match (strip l) = false) processed'
        /\ (lines <> [] -> processed' <> []))
    /\ length (snd out) = length footnotes + definition_lines lines
    /\ (definition_lines lines = 0 ->
        out = (processed_lines ++ lines, footnotes)).
Proof.
  induction fuel as [|fuel IH]; intros lines P0 F0 Hlen Hlf out.
  - destruct lines; [|simpl in Hlen; lia]. subst out. simpl.
    split; [exists []; rewrite app_nil_r; split; [reflexivity|]; split;
            [constructor | congruence]|].
    split; [unfold definition_lines; simpl; lia|].
    intros _. now rewrite app_nil_r.
  - destruct lines as [|line rest].
    + subst out. simpl.
      split; [exists []; rewrite app_nil_r; split; [reflexivity|]; split;
              [constructor | congruence]|].
      split; [unfold definition_lines; simpl; lia|].
      intros _. now rewrite app_nil_r.
    + simpl in Hlen. inversion Hlf as [|? ? Hline Hrest]; subst.
      subst out. cbn [preprocess_loop].
      unfold definition_lines. cbn [filter].
      destruct (footnote_def_match (strip line)) eqn:Ed.
      * destruct (collect_continuation rest) as [more remaining] eqn:Ec.
        pose proof (collect_continuation_plain _ _ _ Ec) as Hplain.
        apply collect_continuation_app in Ec. subst rest.
        rewrite length_app in Hlen.
        apply Forall_app in Hrest. destruct Hrest as [_ Hrem].
        destruct (IH remaining
                    (P0 ++ [placeholder (length (F0 ++ [join_lines (line :: more)]) - 1)])
                    (F0 ++ [join_lines (line :: more)]))
          as ((P1 & E1 & HP1 & _) & Hcount & _); [lia | exact Hrem |].
        split; [|split].
        -- exists (placeholder (length (F0 ++ [join_lines (line :: more)]) - 1)
                   :: P1).
           rewrite E1, <- app_assoc. split; [reflexivity|].
           split; [|discriminate].
           constructor; [|exact HP1].
           split; [apply placeholder_no_LF | apply placeholder_is_no_definition].
        -- rewrite Hcount, length_app. cbn [length].
           rewrite filter_app, length_app.
           assert (Hmore : filter (fun l => footnote_def_match (strip l)) more
                           = []).
           { clear -Hplain. induction Hplain as [|l more Hl _ IHm];
               [reflexivity|]. cbn [filter]. now rewrite Hl. }
           rewrite Hmore. unfold definition_lines. simpl. lia.
        -- cbn [length]. discriminate.
      * destruct (IH rest (P0 ++ [line]) F0)
          as ((P1 & E1 & HP1 & _) & Hcount & Hnone); [lia | exact Hrest |].
        split; [|split].
        -- exists (line :: P1). rewrite E1, <- app_assoc.
           split; [reflexivity|]. split; [|discriminate].
           constructor; [now split | exact HP1].
        -- exact Hcount.
        -- intros H0. rewrite (Hnone H0). now rewrite <- app_assoc.
Qed.

End ShieldMore.

Section ShieldExtras.

Import Shield.

Lemma preprocess_markdown_facts (content : pystr) :
  let out :=
    preprocess_loop (length (split_lines content)) (split_lines content) [] []
  in
  preprocess_markdown content = (join_lines (fst out), snd out).
Proof.
  unfold preprocess_markdown.
  now destruct (preprocess_loop _ (split_lines content) [] []).
Qed.

Lemma filter_none (f : pystr -> bool) (ls : list pystr) :
  (forall l, In l ls -> f l = false) -> filter f ls = [].
Proof.
  induction ls as [|l ls IH]; intros H; [reflexivity|].
  cbn [filter]. rewrite (H l) by (now left).
  apply IH. intros l' Hin. apply H. now right.
Qed.

(** X1.  A content in which no line is a footnote definition is shielded
    into itself, with an empty table. *)
Theorem no_definition_is_identity (content : pystr) :
  (forall line, In line (split_lines content) ->
                footnote_def_match (strip line) = false) ->
  preprocess_markdown content = (content, []).
Proof.
  intros H. rewrite preprocess_markdown_facts.
  destruct (preprocess_loop_facts (length (split_lines content))
              (split_lines content) [] [] (le_n _) (split_lines_no_LF content))
    as (_ & _ & Hnone).
  rewrite Hnone.
  - cbn [fst snd app]. now rewrite join_split.
  - unfold definition_lines.
    now rewrite (filter_none _ _ H).
Qed.

Lemma no_definition_is_identity_witness :
  preprocess_markdown (str "# Title" ++ [LF; LF] ++ str "Some text.")
  = (str "# Title" ++ [LF; LF] ++ str "Some text.", []).
Proof.
  apply no_definition_is_identity.
  intros line Hin. vm_compute in Hin.
  repeat (destruct Hin as [<-|Hin]; [vm_compute; reflexivity|]).
  destruct Hin.
Defined.

(** X2.  No line of the shielded content is a footnote definition: what
    goes to the translator holds none of the definitions. *)
Theorem shielded_content_has_no_definition (content line : pystr) :
  In line (split_lines (fst (preprocess_markdown content))) ->
  footnote_def_match (strip line) = false.
Proof.
  rewrite preprocess_markdown_facts. cbn [fst].
  destruct (preprocess_loop_facts (length (split_lines content))
              (split_lines content) [] [] (le_n _) (split_lines_no_LF content))
    as ((P & EP & HP & _) & _ & _).
  rewrite EP. cbn [app]. intros Hin.
  destruct P as [|p P'].
  - simpl in Hin. destruct Hin as [<-|[]]. reflexivity.
  - rewrite split_join in Hin.
    + rewrite Forall_forall in HP. now apply HP.
    + discriminate.
    + eapply Forall_impl; [|exact HP]. now intros l [Hl _].
Qed.

Lemma shielded_content_has_no_definition_witness :
  footnote_def_match (strip (str "__FOOTNOTE_0__")) = false.
Proof.
  apply (shielded_content_has_no_definition hello_content
           (str "__FOOTNOTE_0__")).
  vm_compute. do 4 right. left. reflexivity.
Defined.

(** X3.  The table has one entry for each line of the content that is a
    footnote definition. *)
Theorem one_footnote_per_definition (content : pystr) :
  length (snd (preprocess_markdown content))
  = definition_lines (split_lines content).
Proof.
  rewrite preprocess_markdown_facts. cbn [snd].
  destruct (preprocess_loop_facts (length (split_lines content))
              (split_lines content) [] [] (le_n _) (split_lines_no_LF content))
    as (_ & Hcount & _).
  exact Hcount.
Qed.

Lemma restore_absent (footnotes : list pystr) :
  forall (n : nat) (s : pystr),
    (forall k, n <= k < n + length footnotes ->
               contains (placeholder k) s = false) ->
    restore_from n footnotes s = s.
Proof.
  induction footnotes as [|fn fns IH]; intros n s H; [reflexivity|].
  cbn [restore_from].
  rewrite replace_absent;
    [| apply placeholder_not_nil | apply H; simpl; lia].
  apply IH. intros k Hk. apply H. simpl. lia.
Qed.

(** X4.  When the translated text holds none of the placeholders of the
    table, unshielding returns it as it is: the footnotes are lost, and
    nothing tells of it. *)
Theorem dropped_placeholders_lose_footnotes (translated : pystr)
  (footnotes : list pystr) :
  (forall k, k < length footnotes ->
             contains (placeholder k) translated = false) ->
  postprocess_markdown translated footnotes = translated.
Proof.
  intros H. rewrite postprocess_restore. apply restore_absent.
  intros k Hk. apply H. lia.
Qed.

Lemma dropped_placeholders_lose_footnotes_witness :
  postprocess_markdown (str "# Titre") [str "[^1]: Note."] = str "# Titre".
Proof.
  apply dropped_placeholders_lose_footnotes.
  intros k Hk. simpl in Hk. assert (k = 0) as -> by lia.
  vm_compute. reflexivity.
Defined.

(** X5.  The placeholder of one index is no part of the placeholder of
    another: [__FOOTNOTE_1__] does not occur in [__FOOTNOTE_10__], so the
    replacement of one footnote leaves the placeholders of the others
    whole. *)
Theorem placeholders_do_not_nest (i j : nat) :
  i <> j -> contains (placeholder i) (placeholder j) = false.
Proof.
  intros Hij. destruct (contains (placeholder i) (placeholder j)) eqn:E;
    [|reflexivity].
  elim Hij. now apply placeholder_in_placeholder.
Qed.

Lemma placeholders_do_not_nest_witness :
  contains (placeholder 1) (placeholder 10) = false.
Proof. apply placeholders_do_not_nest. lia. Defined.

Lemma join_all_space (lines : list pystr) :
  Forall (fun ch => is_space ch = true) (join_lines lines) ->
  Forall (fun l : pystr => Forall (fun ch => is_space ch = true) l) lines.
Proof.
  induction lines as [|l ls IH]; intros H; [constructor|].
  destruct ls as [|l' ls'].
  - constructor; [exact H | constructor].
  - rewrite join_cons in H by discriminate.
    apply Forall_app in H. destruct H as [Hl H].
    inversion H as [|? ? _ Hrest]; subst.
    constructor; [exact Hl | now apply IH].
Qed.

Lemma shielded_all_space (n : nat) (lines processed footnotes : list pystr) :
  shielded n lines processed footnotes ->
  Forall (fun l : pystr => Forall (fun ch => is_space ch = true) l) processed ->
  processed = lines.
Proof.
  induction 1 as [n | n line lines P Fs _ IH | n block lines P Fs Hb _ IH];
    intros H.
  - reflexivity.
  - inversion H; subst. f_equal. now apply IH.
  - inversion H as [|? ? Hp _]; subst.
    unfold placeholder in Hp. cbn in Hp. inversion Hp as [|? ? Hc _].
    discriminate.
Qed.

Lemma preprocess_not_blank (content : pystr) :
  blank content = false ->
  blank (fst (preprocess_markdown content)) = false.
Proof.
  intros Hb. destruct (blank (fst (preprocess_markdown content))) eqn:E;
    [|reflexivity].
  destruct (preprocess_markdown_shielded content) as (P & EP & HS).
  rewrite EP in E. apply blank_spec in E.
  pose proof (shielded_all_space _ _ _ _ HS (join_all_space _ E)) as HP.
  rewrite HP, join_split in E. apply blank_spec in E. congruence.
Qed.

(** X6.  The shielded form of a content that is not blank is not blank:
    the pipeline never hands the gateway a text that the gateway would
    return without translating. *)
Theorem shielded_content_is_not_blank (content : pystr) :
  blank content = false ->
  blank (fst (preprocess_markdown content)) = false.
Proof. apply preprocess_not_blank. Qed.

Lemma shielded_content_is_not_blank_witness :
  blank (fst (preprocess_markdown (str "[^1]: Just a footnote."))) = false.
Proof. apply shielded_content_is_not_blank. reflexivity. Defined.

End ShieldExtras.

(** ** The gateway, further *)

Section GatewayMore.

Variables R F : Type.
Variable generate_content : pystr -> pystr -> R -> reply * R.
Variable c : GeminiAPIClient.

Local Abbreviation world := (world R F).
Local Abbreviation called prompt := (GenerateContent (model_name c) prompt).

Lemma sleep_or_raise_cases (attempt : nat) (wait : Q) (e : exn) :
  (attempt < max_retries c - 1
   /\ sleep_or_raise c attempt wait e = Retry wait e)
  \/ (max_retries c - 1 <= attempt
      /\ sleep_or_raise c attempt wait e = GiveUp e).
Proof.
  unfold sleep_or_raise.
  destruct (attempt <? max_retries c - 1) eqn:E.
  - left. apply Nat.ltb_lt in E. now split.
  - right. apply Nat.ltb_ge in E. now split.
Qed.

(** A reply is a success with a text, or a failure. *)
Lemma reply_cases (rep : reply) :
  (exists t, rep = answers t /\ truthy t = true) \/ is_failure rep = true.
Proof.
  destruct rep as [[[[t|]]|]|msg]; try (right; reflexivity).
  - destruct (truthy t) eqn:Et.
    + left. now exists t.
    + right. unfold is_failure. cbn. now rewrite Et.
  - right. unfold is_failure. cbn. now destruct (rate_limit_message msg).
Qed.

(** The exception kept for a failure is an [APIError], and is not the one
    of the lines after the loop. *)
Lemma kept_exception_facts (rep : reply) :
  isinstance (kept_exception rep) APIError = true
  /\ isinstance (kept_exception rep) RateLimitError = rate_limit_failure rep
  /\ kept_exception rep
     <> Exn APIError (str "Translation failed after all retries").
Proof.
  destruct rep as [r|msg]; cbn [kept_exception rate_limit_failure].
  - repeat split; discriminate.
  - destruct (rate_limit_message msg); repeat split; discriminate.
Qed.

Lemma wait_after_cases (attempt : nat) (rep : reply) :
  wait_after c attempt rep = rate_limit_wait c
  \/ wait_after c attempt rep
     = (retry_delay c * inject_Z (2 ^ Z.of_nat attempt))%Q.
Proof.
  unfold wait_after. destruct (rate_limit_failure rep); [now left | now right].
Qed.

(** The loop, from the attempt [a] on, with [n] attempts left of which the
    last is the last of the budget. *)
Lemma retry_loop_shape (prompt : pystr) (n : nat) :
  forall (a : nat) (last : option exn) (w : world),
    1 <= n -> a + n = max_retries c ->
    let out := retry_loop generate_content c prompt (seq a n) last w in
    (exists evs,
        trace (snd out) = trace w ++ evs /\ attempts c prompt a evs)
    /\ files (snd out) = files w
    /\ (forall e, fst out = Raise e -> exists rep, e = kept_exception rep).
Proof.
  induction n as [|n IH]; intros a last w Hn Hmax out; [lia|].
  subst out. cbn [seq].
  destruct (generate_content (model_name c) prompt (remote w))
    as [rep r1] eqn:E.
  destruct (reply_cases rep) as [(t & -> & Ht)|Hf].
  - rewrite (retry_loop_success _ _ generate_content c prompt a _ last w t r1
               E Ht).
    cbn [fst snd trace files].
    split; [|split; [reflexivity | discriminate]].
    eexists. split; [reflexivity|]. constructor. lia.
  - rewrite (retry_loop_failure _ _ generate_content c prompt a _ last w rep r1
               E Hf).
    destruct (a <? max_retries c - 1) eqn:Ea.
    + apply Nat.ltb_lt in Ea.
      destruct (IH (S a) (Some (kept_exception rep))
                  (World r1 (files w)
                     (trace w ++ [called prompt;
                                  Sleep (wait_after c a rep)])))
        as ((evs & Et & Ha) & Hfiles & Hr); [lia | lia |].
      split; [|split].
      * exists (called prompt :: Sleep (wait_after c a rep) :: evs).
        rewrite Et. cbn [trace]. rewrite <- !app_assoc.
        split; [reflexivity|].
        constructor; [exact Ea | apply wait_after_cases | exact Ha].
      * rewrite Hfiles. reflexivity.
      * exact Hr.
    + cbn [fst snd trace files].
      split; [|split; [reflexivity|]].
      * eexists. split; [reflexivity|]. constructor. lia.
      * intros e [= <-]. now exists rep.
Qed.

Lemma attempts_calls (prompt : pystr) (a : nat) (evs : list event) :
  attempts c prompt a evs ->
  1 <= calls evs /\ a + calls evs <= max_retries c
  /\ last evs (Sleep 0) = called prompt.
Proof.
  induction 1 as [a Ha | a wait evs Ha Hw Hevs (IH1 & IH2 & IH3)].
  - cbn. repeat split; lia.
  - change (calls (called prompt :: Sleep wait :: evs)) with (S (calls evs)).
    repeat split; try lia.
    destruct evs as [|ev evs']; [inversion Hevs|]. exact IH3.
Qed.

(** X7.  On a text that is not blank and with a budget of one attempt or
    more, a call of the gateway leaves in the trace calls of the remote
    service with the one prompt, a wait between two calls and none after
    the last: it calls at least once and at most [max_retries] times, it
    never sleeps after its last attempt, and it does not touch the files. *)
Theorem translate_text_effects (text target : pystr) (w : world) :
  blank text = false ->
  1 <= max_retries c ->
  let w' := snd (translate_text generate_content c text target w) in
  exists evs,
    trace w' = trace w ++ evs
    /\ attempts c (make_prompt text target) 0 evs
    /\ 1 <= calls evs <= max_retries c
    /\ last evs (Sleep 0) = called (make_prompt text target)
    /\ files w' = files w.
Proof.
  intros Hb Hmax w'. subst w'. unfold translate_text. rewrite Hb.
  destruct (retry_loop_shape (make_prompt text target) (max_retries c) 0 None w
              Hmax eq_refl) as ((evs & Et & Ha) & Hf & _).
  exists evs. split; [exact Et|]. split; [exact Ha|].
  destruct (attempts_calls _ _ _ Ha) as (H1 & H2 & H3).
  split; [lia|]. split; [exact H3 | exact Hf].
Qed.

(** X8.  For a client whose waits can be computed and slept
    ([valid_waits]), whatever the remote service does, an exception that
    leaves the gateway is an [APIError] (a [RateLimitError] is one), as its
    docstring says. *)
Theorem translate_text_raises_api_errors (text target : pystr) (w w' : world)
  (e : exn) :
  valid_waits c = true ->
  translate_text generate_content c text target w = (Raise e, w') ->
  isinstance e APIError = true.
Proof.
  intros _. unfold translate_text. destruct (blank text); [discriminate|].
  intros H. destruct (max_retries c) as [|n] eqn:En.
  - simpl in H. now injection H as <- _.
  - destruct (retry_loop_shape (make_prompt text target) (S n) 0 None w)
      as (_ & _ & Hr); [lia | now rewrite En |].
    rewrite H in Hr. destruct (Hr e eq_refl) as (rep & ->).
    apply kept_exception_facts.
Qed.

(** X9.  On a text that is not blank, the error of the lines after the
    loop, "Translation failed after all retries", is raised exactly when
    the budget is of no attempt; then no call is made. *)
Theorem fallback_error_needs_no_budget (text target : pystr) (w : world) :
  blank text = false ->
  let fallback := Exn APIError (str "Translation failed after all retries") in
  (max_retries c = 0 ->
   translate_text generate_content c text target w = (Raise fallback, w))
  /\ (fst (translate_text generate_content c text target w) = Raise fallback ->
      max_retries c = 0).
Proof.
  intros Hb fallback. unfold translate_text. rewrite Hb. split.
  - intros ->. reflexivity.
  - intros H. destruct (max_retries c) as [|n] eqn:En; [reflexivity|].
    destruct (retry_loop_shape (make_prompt text target) (S n) 0 None w)
      as (_ & _ & Hr); [lia | now rewrite En |].
    destruct (Hr fallback H) as (rep & Hrep).
    symmetry in Hrep. now apply kept_exception_facts in Hrep.
Qed.

(** X10.  The budget is one for all kinds of failure: for a client whose
    waits can be computed and slept ([valid_waits]), when [max_retries]
    calls fail, of rate or not in any order, the gateway raises the error
    of the last failure, a [RateLimitError] exactly when that last failure
    was one of rate, and each earlier attempt was followed by the wait of
    its own kind. *)
Theorem mixed_failures_share_the_budget (text target : pystr) (w : world)
  (reps : list reply) (rep : reply) (r' : R) :
  valid_waits c = true ->
  blank text = false ->
  Forall (fun rep => is_failure rep = true) (reps ++ [rep]) ->
  length (reps ++ [rep]) = max_retries c ->
  replies generate_content (model_name c) (make_prompt text target) (remote w)
    (reps ++ [rep]) r' ->
  translate_text generate_content c text target w
  = (Raise (kept_exception rep),
     World r' (files w)
       (trace w ++ failed_attempts c (make_prompt text target) 0 reps
        ++ [called (make_prompt text target)]))
  /\ isinstance (kept_exception rep) RateLimitError = rate_limit_failure rep
  /\ calls (failed_attempts c (make_prompt text target) 0 reps
            ++ [called (make_prompt text target)]) = max_retries c.
Proof.
  intros _ Hb Hf Hlen Hr.
  split; [now apply translate_text_exhausts|].
  split; [apply kept_exception_facts|].
  rewrite calls_app, calls_failed_attempts, <- Hlen, length_app. reflexivity.
Qed.

Lemma total_sleep_app (t1 t2 : list event) :
  (total_sleep (t1 ++ t2) == total_sleep t1 + total_sleep t2)%Q.
Proof.
  induction t1 as [|[m p|s] t1 IH]; cbn [app total_sleep].
  - ring.
  - exact IH.
  - rewrite IH. ring.
Qed.

Lemma pow2_succ (a : nat) :
  inject_Z (2 ^ Z.of_nat (S a)) = (2 * inject_Z (2 ^ Z.of_nat a))%Q.
Proof.
  rewrite Nat2Z.inj_succ, Z.pow_succ_r by apply Nat2Z.is_nonneg.
  now rewrite inject_Z_mult.
Qed.

(** The waits of [k] generic failures from the attempt [a] on add up to
    [retry_delay * (2 ** (a + k) - 2 ** a)]. *)
Lemma total_sleep_backoff (prompt : pystr) (k : nat) :
  forall a,
    (total_sleep
       (flat_map
          (fun i => [called prompt;
                     Sleep (retry_delay c * inject_Z (2 ^ Z.of_nat i))])
          (seq a k))
     == retry_delay c * (inject_Z (2 ^ Z.of_nat (a + k))
                         - inject_Z (2 ^ Z.of_nat a)))%Q.
Proof.
  induction k as [|k IH]; intros a.
  - rewrite Nat.add_0_r. cbn [seq flat_map total_sleep]. ring.
  - cbn [seq flat_map app total_sleep]. rewrite IH.
    replace (a + S k) with (S a + k) by lia.
    rewrite (pow2_succ a). ring.
Qed.

Lemma total_sleep_fixed (prompt : pystr) (k : nat) :
  (total_sleep (concat (repeat [called prompt; Sleep (rate_limit_wait c)] k))
   == rate_limit_wait c * inject_Z (Z.of_nat k))%Q.
Proof.
  induction k as [|k IH].
  - cbn. ring.
  - cbn [repeat concat app total_sleep]. rewrite IH.
    rewrite Nat2Z.inj_succ. unfold Z.succ. rewrite inject_Z_plus. ring.
Qed.

(** X11.  How long a call of the gateway can sleep before it gives up.
    When generic failures (raised, or empty responses) use up the budget of
    a client whose back-offs can be computed and slept ([valid_backoff]),
    the waits add up to [retry_delay * (2 ** (max_retries - 1) - 1)]; when
    failures of rate use up the budget of a client whose fixed wait can be
    slept ([valid_rate_limit_wait]), to
    [rate_limit_wait * (max_retries - 1)].  With the values of [main] that
    is 3 and 120 seconds. *)
Theorem worst_case_wait (text target : pystr) (w : world)
  (reps : list reply) (rep : reply) (r' : R) :
  blank text = false ->
  length (reps ++ [rep]) = max_retries c ->
  replies generate_content (model_name c) (make_prompt text target) (remote w)
    (reps ++ [rep]) r' ->
  let w' := snd (translate_text generate_content c text target w) in
  (valid_backoff c = true ->
   Forall (fun rep => generic_failure rep = true) (reps ++ [rep]) ->
   (total_sleep (trace w')
    == total_sleep (trace w)
       + retry_delay c
         * (inject_Z (2 ^ Z.of_nat (max_retries c - 1)) - 1))%Q)
  /\ (valid_rate_limit_wait c = true ->
      Forall (fun rep => rate_limit_failure rep = true) (reps ++ [rep]) ->
      (total_sleep (trace w')
       == total_sleep (trace w)
          + rate_limit_wait c * inject_Z (Z.of_nat (max_retries c - 1)))%Q).
Proof.
  intros Hb Hlen Hr w'.
  assert (Hn : max_retries c - 1 = length reps)
    by (rewrite <- Hlen, length_app; simpl; lia).
  split; intros _ Hf.
  - assert (Hfail : Forall (fun rep => is_failure rep = true) (reps ++ [rep]))
      by (eapply Forall_impl; [|exact Hf]; apply generic_is_failure).
    subst w'.
    rewrite (translate_text_exhausts _ _ generate_content c text target w reps
               rep r' Hb Hfail Hlen Hr).
    cbn [snd trace]. apply Forall_app in Hf. destruct Hf as [Hf _].
    rewrite (failed_attempts_generic c _ reps 0 Hf).
    rewrite !total_sleep_app, total_sleep_backoff, Hn.
    cbn [total_sleep Nat.add]. change (inject_Z (2 ^ Z.of_nat 0)) with 1%Q.
    ring.
  - assert (Hfail : Forall (fun rep => is_failure rep = true) (reps ++ [rep]))
      by (eapply Forall_impl; [|exact Hf]; apply rate_limit_is_failure).
    subst w'.
    rewrite (translate_text_exhausts _ _ generate_content c text target w reps
               rep r' Hb Hfail Hlen Hr).
    cbn [snd trace]. apply Forall_app in Hf. destruct Hf as [Hf _].
    rewrite (failed_attempts_rate_limit c _ reps 0 Hf).
    rewrite !total_sleep_app, total_sleep_fixed, Hn.
    cbn [total_sleep]. ring.
Qed.

End GatewayMore.

Lemma translate_text_effects_witness :
  exists evs,
    trace (snd (translate_text scripted main_client (str "Hello")
                  (str "Japanese")
                  (scripted_world [Fails (str "Temporary error");
                                   answers (str "Success")])))
    = [] ++ evs
    /\ attempts main_client (make_prompt (str "Hello") (str "Japanese")) 0 evs
    /\ 1 <= calls evs <= 3
    /\ last evs (Sleep 0)
       = GenerateContent (str "gemini-3-flash-preview")
           (make_prompt (str "Hello") (str "Japanese"))
    /\ files (snd (translate_text scripted main_client (str "Hello")
                     (str "Japanese")
                     (scripted_world [Fails (str "Temporary error");
                                      answers (str "Success")])))
       = tt.
Proof.
  apply (translate_text_effects (list reply) unit scripted main_client
           (str "Hello") (str "Japanese")
           (scripted_world [Fails (str "Temporary error");
                            answers (str "Success")])).
  - reflexivity.
  - vm_compute. lia.
Defined.

Lemma translate_text_raises_api_errors_witness :
  isinstance (Exn APIError (str "API call failed: no reply left")) APIError
  = true.
Proof.
  apply (translate_text_raises_api_errors (list reply) unit scripted
           main_client (str "Hello") (str "Japanese") (scripted_world [])
           (World [] tt
              [GenerateContent (str "gemini-3-flash-preview")
                 (make_prompt (str "Hello") (str "Japanese"));
               Sleep 1;
               GenerateContent (str "gemini-3-flash-preview")
                 (make_prompt (str "Hello") (str "Japanese"));
               Sleep 2;
               GenerateContent (str "gemini-3-flash-preview")
                 (make_prompt (str "Hello") (str "Japanese"))])).
  - reflexivity.
  - reflexivity.
Defined.

Lemma fallback_error_needs_no_budget_witness :
  translate_text scripted (Client (str "gemini-3-flash-preview") 0 1 60)
    (str "Hello") (str "Japanese") (scripted_world [answers (str "Success")])
  = (Raise (Exn APIError (str "Translation failed after all retries")),
     scripted_world [answers (str "Success")]).
Proof.
  destruct (fallback_error_needs_no_budget (list reply) unit scripted
              (Client (str "gemini-3-flash-preview") 0 1 60)
              (str "Hello") (str "Japanese")
              (scripted_world [answers (str "Success")]) eq_refl) as (H & _).
  apply H. reflexivity.
Defined.

(** A failure of quota, a generic one, and an empty response: waits of
    sixty and of two seconds, and the error of the empty response. *)
Lemma mixed_failures_share_the_budget_witness :
  let call := GenerateContent (str "gemini-3-flash-preview")
                (make_prompt (str "Hello") (str "Japanese")) in
  translate_text scripted main_client (str "Hello") (str "Japanese")
    (scripted_world [Fails (str "Quota exceeded");
                     Fails (str "Temporary error");
                     Responds None])
  = (Raise (Exn APIError (str "API returned empty response")),
     World [] tt [call; Sleep 60; call; Sleep 2; call]).
Proof.
  destruct (mixed_failures_share_the_budget (list reply) unit scripted
              main_client (str "Hello") (str "Japanese")
              (scripted_world [Fails (str "Quota exceeded");
                               Fails (str "Temporary error");
                               Responds None])
              [Fails (str "Quota exceeded"); Fails (str "Temporary error")]
              (Responds None) []) as (H & _).
  - reflexivity.
  - reflexivity.
  - repeat constructor.
  - reflexivity.
  - repeat econstructor.
  - exact H.
Defined.

Lemma worst_case_wait_witness :
  (total_sleep
     (trace (snd (translate_text scripted main_client (str "Hello")
                    (str "Japanese")
                    (scripted_world [Fails (str "Temporary error");
                                     Fails (str "Temporary error");
                                     Fails (str "Temporary error")]))))
   == 0 + 1 * (inject_Z (2 ^ Z.of_nat (3 - 1)) - 1))%Q.
Proof.
  destruct (worst_case_wait (list reply) unit scripted main_client
              (str "Hello") (str "Japanese")
              (scripted_world [Fails (str "Temporary error");
                               Fails (str "Temporary error");
                               Fails (str "Temporary error")])
              [Fails (str "Temporary error"); Fails (str "Temporary error")]
              (Fails (str "Temporary error")) []) as (H & _).
  - reflexivity.
  - reflexivity.
  - repeat econstructor.
  - apply H; [reflexivity | repeat constructor].
Defined.

(** ** The pipeline and the batch over the gateway *)

Section BatchOverGateway.

Variables R F : Type.
Variable generate_content : pystr -> pystr -> R -> reply * R.
Variable c : GeminiAPIClient.
Variable find_markdown_files : F -> result (list path).
Variable read_file : path -> F -> result pystr.
Variable write_file : path -> pystr -> F -> result unit * F.

Local Abbreviation world := (world R F).
Local Abbreviation gateway := (translate_text generate_content c).
Local Abbreviation single_file :=
  (_translate_single_file gateway read_file write_file).

Lemma translate_text_calls (text target : pystr) (w : world) :
  calls (trace (snd (gateway text target w))) <= calls (trace w) + max_retries c.
Proof.
  unfold translate_text. destruct (blank text).
  - cbn [snd]. lia.
  - etransitivity; [apply retry_loop_calls|]. now rewrite length_seq.
Qed.

Lemma translate_markdown_calls (content : pystr) (w : world) :
  calls (trace (snd (translate_markdown gateway content w)))
  <= calls (trace w) + max_retries c.
Proof.
  unfold translate_markdown. destruct (blank content); [cbn [snd]; lia|].
  destruct (Shield.preprocess_markdown content) as [processed footnotes].
  pose proof (translate_text_calls processed (str "Japanese") w) as H.
  destruct (gateway processed (str "Japanese") w) as [[t|e] w1]; exact H.
Qed.

Lemma translate_stem_calls (original_stem : pystr) (w : world) :
  calls (trace (snd (translate_stem gateway original_stem w)))
  <= calls (trace w) + max_retries c.
Proof.
  unfold translate_stem.
  pose proof (translate_text_calls original_stem (str "Japanese") w) as H.
  destruct (gateway original_stem (str "Japanese") w) as [[t|e] w1]; exact H.
Qed.

Lemma single_file_calls (f : path) (output_dir_name : pystr) (w : world) :
  calls (trace (snd (single_file f output_dir_name w)))
  <= calls (trace w) + 2 * max_retries c.
Proof.
  unfold _translate_single_file, do_read, do_write.
  destruct (read_file f (files w)) as [content|e]; [|cbn [snd]; lia].
  pose proof (translate_markdown_calls content w) as H1.
  destruct (translate_markdown gateway content w) as [[translated|e] w1];
    cbn [snd] in H1; [|cbn [snd]; lia].
  pose proof (translate_stem_calls (stem f) w1) as H2.
  destruct (translate_stem gateway (stem f) w1) as [base w2]. cbn [snd] in H2.
  destruct (write_file _ translated (files w2)) as [[u|e] fs];
    cbn [snd trace]; lia.
Qed.

Lemma batch_calls (fs : list path) (output_dir_name : pystr) :
  forall w : world,
    calls (trace (snd (translate_files gateway read_file write_file fs
                         output_dir_name [] w)))
    <= calls (trace w) + 2 * max_retries c * length fs.
Proof.
  induction fs as [|f fs IH]; intros w.
  - cbn [translate_files snd length]. lia.
  - rewrite batch_cons. cbn [snd length].
    etransitivity; [apply IH|].
    pose proof (single_file_calls f output_dir_name w). lia.
Qed.

(** X12.  What the batch can cost: over K enumerated documents it calls
    the remote service at most [2 * max_retries * K] times (the content and
    the base name of each document, each within the budget). *)
Theorem batch_call_bound (output_dir_name : pystr) (w : world)
  (markdown_files : list path) :
  find_markdown_files (files w) = Return markdown_files ->
  calls (trace (snd (translate_directory gateway find_markdown_files
                       read_file write_file output_dir_name w)))
  <= calls (trace w) + 2 * max_retries c * length markdown_files.
Proof.
  intros E. rewrite (translate_directory_batch _ _ _ _ _ _ _ _ _ E).
  apply batch_calls.
Qed.

(** X13.  How a failure of the remote service shows in the result of a
    document, for a client whose back-offs can be computed and slept
    ([valid_backoff]): when the document is read, its content is not blank,
    and [max_retries] calls for its shielded content fail with messages that
    tell of no limit of rate, the document is marked failed with the
    message "Failed to translate markdown: API call failed: " followed by
    the message of the last failure; [max_retries] calls were made, the
    base name was not sent, and nothing was written. *)
Theorem remote_failure_reaches_the_result (f : path) (output_dir_name : pystr)
  (w : world) (content : pystr) (msgs : list pystr) (msg : pystr) (r' : R) :
  valid_backoff c = true ->
  read_file f (files w) = Return content ->
  blank content = false ->
  Forall (fun m => rate_limit_message m = false) (msgs ++ [msg]) ->
  length (msgs ++ [msg]) = max_retries c ->
  replies generate_content (model_name c)
    (make_prompt (fst (Shield.preprocess_markdown content)) (str "Japanese"))
    (remote w) (map Fails (msgs ++ [msg])) r' ->
  exists tr,
    single_file f output_dir_name w
    = (Result f false
         (Some (str "Failed to translate markdown: API call failed: " ++ msg)),
       World r' (files w) tr)
    /\ calls tr = calls (trace w) + max_retries c.
Proof.
  intros _ Er Hb Hg Hlen Hr.
  unfold _translate_single_file, do_read, translate_markdown.
  rewrite Er, Hb.
  pose proof (preprocess_not_blank content Hb) as Hpb.
  destruct (Shield.preprocess_markdown content) as [processed footnotes].
  cbn [fst] in Hr, Hpb.
  assert (Hfail : Forall (fun rep => is_failure rep = true)
                    (map Fails msgs ++ [Fails msg])).
  { change [Fails msg] with (map Fails [msg]).
    rewrite <- (map_app Fails msgs [msg]).
    apply (Forall_map_Fails (fun m => negb (rate_limit_message m))
             is_failure).
    - intros m Hm. unfold is_failure. cbn. now rewrite Hm.
    - eapply Forall_impl; [|exact Hg]. intros m Hm. now rewrite Hm. }
  rewrite map_app in Hr. cbn [map] in Hr.
  rewrite (translate_text_exhausts _ _ generate_content c processed
             (str "Japanese") w (map Fails msgs) (Fails msg) r' Hpb Hfail);
    [| rewrite length_app, length_map; rewrite length_app in Hlen; exact Hlen
     | exact Hr].
  apply Forall_app in Hg. destruct Hg as [_ Hmsg].
  inversion Hmsg as [|? ? Hm _]; subst.
  cbn [kept_exception]. rewrite Hm. cbn [message].
  eexists. split; [reflexivity|].
  rewrite !calls_app, calls_failed_attempts, length_map.
  rewrite length_app in Hlen. simpl in Hlen.
  change (calls [GenerateContent (model_name c)
                   (make_prompt processed (str "Japanese"))]) with 1.
  lia.
Qed.

End BatchOverGateway.

Lemma batch_call_bound_witness :
  calls (trace (snd (translate_directory
                       (translate_text scripted main_client)
                       Mem.find_markdown_files Mem.read_file Mem.write_file
                       (str "jp") failing_world)))
  <= calls (trace failing_world) + 2 * 3 * 1.
Proof.
  apply (batch_call_bound (list reply) Mem.fs scripted main_client
           Mem.find_markdown_files Mem.read_file Mem.write_file (str "jp")
           failing_world [[str "test.md"]]).
  reflexivity.
Defined.

Lemma remote_failure_reaches_the_result_witness :
  exists tr,
    _translate_single_file (translate_text scripted main_client)
      Mem.read_file Mem.write_file [str "test.md"] (str "jp") failing_world
    = (Result [str "test.md"] false
         (Some (str "Failed to translate markdown: API call failed: no reply left")),
       World [] (files failing_world) tr)
    /\ calls tr = calls (trace failing_world) + 3.
Proof.
  apply (remote_failure_reaches_the_result (list reply) Mem.fs scripted
           main_client Mem.read_file Mem.write_file [str "test.md"] (str "jp")
           failing_world (str "# Test")
           [str "no reply left"; str "no reply left"] (str "no reply left") []).
  - reflexivity.
  - reflexivity.
  - reflexivity.
  - repeat constructor.
  - reflexivity.
  - repeat econstructor.
Defined.

(** ** The exit code and the summary *)

Lemma exit_code_values (results : list TranslationResult) :
  (exit_code results = 0
   /\ forall r, In r results -> success r = true)
  \/ (exit_code results = 1
      /\ exists r, In r results /\ success r = false).
Proof.
  destruct results as [|r0 rs]; [left; split; [reflexivity | intros r []]|].
  unfold exit_code.
  destruct (filter (fun r => negb (success r)) (r0 :: rs)) as [|x xs] eqn:E.
  - left. split; [reflexivity|]. intros r Hin.
    destruct (success r) eqn:Er; [reflexivity|].
    assert (Hf : In r (filter (fun r => negb (success r)) (r0 :: rs)))
      by (apply filter_In; split; [exact Hin | now rewrite Er]).
    rewrite E in Hf. destruct Hf.
  - right. split; [reflexivity|]. exists x.
    assert (Hf : In x (filter (fun r => negb (success r)) (r0 :: rs)))
      by (rewrite E; now left).
    apply filter_In in Hf. destruct Hf as [Hin Hx].
    split; [exact Hin|]. now destruct (success x).
Qed.

Section MainMore.

Variables R F : Type.
Variable generate_content : pystr -> pystr -> R -> reply * R.
Variable find_markdown_files : F -> result (list path).
Variable read_file : path -> F -> result pystr.
Variable write_file : path -> pystr -> F -> result unit * F.
Variable validate_directory : F -> result unit.
Variable load_api_key_from_env : F -> result pystr.
Variable genai_Client : pystr -> result unit.

Local Abbreviation world := (world R F).
Local Abbreviation run_main :=
  (main generate_content find_markdown_files read_file write_file
     validate_directory load_api_key_from_env genai_Client).
Local Abbreviation init api_key :=
  (GeminiAPIClient_init genai_Client api_key (str "gemini-3-flash-preview")
     3 1 60).

(** X14.  The exit code of [main] is 0 or 1.  It is 0 exactly when the
    directory is valid, the key is loaded, the client is built, and every
    result of the batch is a success (also when there is no result).  When
    the directory, the key or the client fails, [main] returns 1 and has
    done nothing: no call, no file written. *)
Theorem exit_code_characterization (w : world) :
  (fst (run_main w) = 0 \/ fst (run_main w) = 1)
  /\ (fst (run_main w) = 0 <->
      exists u api_key api_client,
        validate_directory (files w) = Return u
        /\ load_api_key_from_env (files w) = Return api_key
        /\ init api_key = Return api_client
        /\ forall r,
            In r (fst (translate_directory
                         (translate_text generate_content api_client)
                         find_markdown_files read_file write_file
                         (str "jp") w)) ->
            success r = true)
  /\ ((exists e, validate_directory (files w) = Raise e)
      \/ (exists e, load_api_key_from_env (files w) = Raise e)
      \/ (exists api_key e,
             load_api_key_from_env (files w) = Return api_key
             /\ init api_key = Raise e) ->
      run_main w = (1, w)).
Proof.
  unfold main.
  destruct (validate_directory (files w)) as [u|e1] eqn:Ev.
  2:{ split; [now right|]. split; [|reflexivity].
      split; [discriminate|]. now intros (? & ? & ? & [=] & _). }
  destruct (load_api_key_from_env (files w)) as [api_key|e2] eqn:Ek.
  2:{ split; [now right|]. split; [|reflexivity].
      split; [discriminate|]. now intros (? & ? & ? & _ & [=] & _). }
  destruct (init api_key) as [api_client|e3] eqn:Ei.
  2:{ split; [now right|]. split; [|reflexivity].
      split; [discriminate|].
      intros (? & k & ? & _ & [= <-] & Hi & _). congruence. }
  destruct (translate_directory (translate_text generate_content api_client)
              find_markdown_files read_file write_file (str "jp") w)
    as [results w1] eqn:Et.
  cbn [fst].
  destruct (exit_code_values results) as [[E0 Hall]|[E1 (r & Hin & Hr)]].
  - split; [now left|]. split.
    + split; [|intros _; exact E0]. intros _.
      exists u, api_key, api_client.
      split; [reflexivity|]. split; [reflexivity|]. split; [exact Ei|].
      rewrite Et. exact Hall.
    + intros [(e & [=])|[(e & [=])|(k & e & [= <-] & Hi)]]. congruence.
  - split; [now right|]. split.
    + split; [rewrite E1; discriminate|].
      intros (u' & k & cl & _ & [= <-] & Hi & Hall).
      rewrite Ei in Hi. injection Hi as <-. rewrite Et in Hall.
      specialize (Hall r Hin). congruence.
    + intros [(e & [=])|[(e & [=])|(k & e & [= <-] & Hi)]]. congruence.
Qed.

End MainMore.

Section SummaryFacts.

Variable path_str : path -> pystr.

Lemma partition_length (f : TranslationResult -> bool)
  (rs : list TranslationResult) :
  length (filter f rs) + length (filter (fun r => negb (f r)) rs) = length rs.
Proof.
  induction rs as [|r rs IH]; [reflexivity|].
  cbn [filter]. destruct (f r); cbn [negb length]; lia.
Qed.

(** X15.  For results that are not empty, the summary prints the number
    of all results, the number of the successful ones and the number of the
    failed ones, and the first is the sum of the two others; it lists
    failures exactly when the number of the failed is not 0, and that is
    exactly when the exit code is 1. *)
Theorem summary_counts_agree (results : list TranslationResult) :
  results <> [] ->
  let s := length (filter (fun r => success r) results) in
  let f := length (filter (fun r => negb (success r)) results) in
  exists details : list pystr,
    Summary.print_summary path_str results
    = [LF :: Summary.rule;
       str "TRANSLATION SUMMARY";
       Summary.rule;
       str "Total files: " ++ str_of_nat (length results);
       str "Successful: " ++ str_of_nat s;
       str "Failed: " ++ str_of_nat f]
      ++ details ++ [Summary.rule]
    /\ s + f = length results
    /\ (f = 0 <-> details = [])
    /\ (f = 0 <-> exit_code results = 0).
Proof.
  intros Hne s f. subst s f. destruct results as [|r0 rs]; [congruence|].
  pose proof (partition_length (fun r => success r) (r0 :: rs)) as Hsum.
  unfold Summary.print_summary, exit_code.
  destruct (filter (fun r => negb (success r)) (r0 :: rs)) as [|x xs] eqn:E.
  - exists []. split; [reflexivity|]. split; [exact Hsum|].
    split; split; reflexivity.
  - eexists. split; [reflexivity|]. split; [exact Hsum|].
    split; split; discriminate.
Qed.

(** X16.  Every failed result that bears a message has its two lines in
    the summary: its path, and right after it its error. *)
Theorem summary_lists_each_failure (results : list TranslationResult)
  (r : TranslationResult) (m : pystr) :
  In r results ->
  success r = false ->
  error_message r = Some m ->
  truthy m = true ->
  exists before after,
    Summary.print_summary path_str results
    = before
      ++ [str "  - " ++ path_str (source_file r); str "    Error: " ++ m]
      ++ after.
Proof.
  intros Hin Hr Hm Ht.
  assert (Hf : In r (filter (fun r => negb (success r)) results))
    by (apply filter_In; split; [exact Hin | now rewrite Hr]).
  destruct results as [|r0 rs]; [destruct Hin|].
  unfold Summary.print_summary.
  destruct (filter (fun r => negb (success r)) (r0 :: rs)) as [|x xs] eqn:E;
    [destruct Hf|].
  apply in_split in Hf. destruct Hf as (l1 & l2 & ->).
  rewrite flat_map_app. cbn [flat_map].
  unfold Summary.failed_lines at 2. rewrite Hm, Ht.
  match goal with
  | |- exists before after, ?header ++ _ = _ =>
      exists (header ++ (LF :: str "Failed files:")
                :: flat_map (Summary.failed_lines path_str) l1),
             (flat_map (Summary.failed_lines path_str) l2 ++ [Summary.rule])
  end.
  rewrite <- (app_assoc _ (_ :: flat_map _ l1)). f_equal.
  cbn [app]. f_equal. now rewrite <- app_assoc.
Qed.

End SummaryFacts.

Lemma summary_counts_agree_witness :
  exists details : list pystr,
    Summary.print_summary posix_str mixed_results
    = [LF :: Summary.rule;
       str "TRANSLATION SUMMARY";
       Summary.rule;
       str "Total files: " ++ str "2";
       str "Successful: " ++ str "1";
       str "Failed: " ++ str "1"]
      ++ details ++ [Summary.rule]
    /\ 1 + 1 = 2
    /\ (1 = 0 <-> details = [])
    /\ (1 = 0 <-> exit_code mixed_results = 0).
Proof.
  apply (summary_counts_agree posix_str mixed_results). discriminate.
Defined.

Lemma summary_lists_each_failure_witness :
  exists before after,
    Summary.print_summary posix_str mixed_results
    = before
      ++ [str "  - " ++ str "bad.md"; str "    Error: " ++ str "Permission denied"]
      ++ after.
Proof.
  apply (summary_lists_each_failure posix_str mixed_results
           (Result [str "bad.md"] false (Some (str "Permission denied")))
           (str "Permission denied")).
  - right. left. reflexivity.
  - reflexivity.
  - reflexivity.
  - reflexivity.
Defined.

(** ** The key file *)

Section EnvFacts.

Import More Env.

Lemma find_key_skip (line : pystr) (rest : list pystr) :
  key_line line = false -> find_key (line :: rest) = find_key rest.
Proof.
  unfold key_line. intros H. cbn [find_key].
  destruct (negb (truthy (strip line)) || startswith (str "#") (strip line));
    [reflexivity|].
  now rewrite H.
Qed.

Lemma find_key_hit (line : pystr) (rest : list pystr) :
  key_line line = true -> find_key (line :: rest) = key_of_line (strip line).
Proof.
  unfold key_line. intros H. cbn [find_key]. rewrite H.
  destruct (strip line) as [|ch s]; [discriminate|].
  change (str "key=") with ("k"%char :: str "ey=") in H.
  cbn [startswith] in H. apply andb_true_iff in H. destruct H as [Hk _].
  apply eqc_true in Hk. subst ch. reflexivity.
Qed.

(** X17.  The lines of the key file before the first line that, stripped,
    starts with [key=] are passed over, whatever they are; that line alone
    decides the result (a key, or the error of the empty value), and the
    lines after it are not read.  A file with no such line gives the error
    of the missing key. *)
Theorem first_key_line_decides (env_file_str content : pystr) :
  (forall before line after,
      splitlines content = before ++ line :: after ->
      Forall (fun l => key_line l = false) before ->
      key_line line = true ->
      load_api_key_from_env env_file_str (Readable content)
      = key_of_line (strip line))
  /\ (Forall (fun l => key_line l = false) (splitlines content) ->
      load_api_key_from_env env_file_str (Readable content)
      = Raise (Exn ValueError
                 (str "API key not found in .env file (expected format: key=<your_api_key>)"))).
Proof.
  cbn [load_api_key_from_env]. split.
  - intros before line after -> Hb Hl.
    induction Hb as [|l before Hlb _ IH].
    + now apply find_key_hit.
    + cbn [app]. now rewrite find_key_skip.
  - intros H. induction H as [|l ls Hl _ IH]; [reflexivity|].
    now rewrite find_key_skip.
Qed.

(** X18.  A key is returned only from a file that could be read, and a key
    that is returned is not empty. *)
Theorem returned_key_is_not_empty (env_file_str : pystr) (f : env_file)
  (api_key : pystr) :
  load_api_key_from_env env_file_str f = Return api_key ->
  api_key <> [] /\ exists content, f = Readable content.
Proof.
  destruct f as [| |e|content]; try discriminate.
  cbn [load_api_key_from_env]. intros H.
  split; [|now exists content].
  induction (splitlines content) as [|line rest IH]; [discriminate|].
  cbn [find_key] in H.
  destruct (negb (truthy (strip line)) || startswith (str "#") (strip line));
    [now apply IH|].
  destruct (startswith (str "key=") (strip line)); [|now apply IH].
  unfold key_of_line in H.
  destruct (unquote (strip (skipn 4 (strip line)))) as [|ch k];
    [discriminate|].
  injection H as <-. discriminate.
Qed.

Lemma splitlines_one (s : pystr) :
  s <> [] -> Forall (fun ch => is_linebreak ch = false) s ->
  splitlines s = [s].
Proof.
  unfold splitlines. intros Hne H. induction H as [|ch s Hch Hs IH];
    [congruence|].
  cbn [splitlines_from andb]. rewrite Hch.
  destruct s as [|ch' s']; [reflexivity|].
  rewrite IH by discriminate. reflexivity.
Qed.

Lemma endswith_last (ch : ascii) (s : pystr) :
  endswith [ch] (s ++ [ch]) = true.
Proof.
  unfold endswith. rewrite rev_app_distr. cbn. now rewrite eqc_refl.
Qed.

Lemma inner_quoted (ch : ascii) (v : pystr) : inner (ch :: v ++ [ch]) = v.
Proof. unfold inner. cbn [tl]. apply removelast_last. Qed.

(** The value between a pair of quotes [q]. *)
Lemma key_of_quoted_line (q : ascii) (v : pystr) :
  (q = DQUOTE \/ q = "'"%char) -> v <> [] ->
  key_of_line (str "key=" ++ q :: v ++ [q]) = Return v.
Proof.
  intros Hq Hv. unfold key_of_line.
  change (skipn 4 (str "key=" ++ q :: v ++ [q])) with (q :: v ++ [q]).
  assert (Hs : is_space q = false) by (destruct Hq; subst; reflexivity).
  rewrite (strip_fixed q q v Hs Hs).
  assert (Hu : unquote (q :: v ++ [q]) = v).
  { unfold unquote.
    change (q :: v ++ [q]) with ((q :: v) ++ [q]).
    destruct Hq; subst q.
    - rewrite endswith_last. cbn [startswith app].
      rewrite eqc_refl. cbn [andb]. apply inner_quoted.
    - change (str "'") with ["'"%char].
      rewrite endswith_last. cbn [startswith app andb].
      change (eqc DQUOTE "'") with false. cbn [andb].
      change (eqc "'" "'") with true. cbn [andb]. apply inner_quoted. }
  rewrite Hu. destruct v; [congruence | reflexivity].
Qed.

Lemma load_one_line (env_file_str line : pystr) :
  line <> [] -> Forall (fun ch => is_linebreak ch = false) line ->
  strip line = line -> startswith (str "key=") line = true ->
  load_api_key_from_env env_file_str (Readable line) = key_of_line line.
Proof.
  intros Hne Hlb Hs Hk. cbn [load_api_key_from_env].
  rewrite splitlines_one by assumption.
  rewrite find_key_hit; [now rewrite Hs|].
  unfold key_line. now rewrite Hs.
Qed.

(** X19.  A key written into the file is the key that is loaded.  For a
    value that is not empty and has no line boundary in it: the file
    [key="<value>"] and the file [key='<value>'] give the value as it is,
    white space and quotes inside included; and the file [key=<value>]
    gives the value when the value has no white space at its ends and no
    pair of quotes around it. *)
Theorem key_file_round_trip (env_file_str v : pystr) :
  v <> [] ->
  Forall (fun ch => is_linebreak ch = false) v ->
  load_api_key_from_env env_file_str
    (Readable (str "key=" ++ DQUOTE :: v ++ [DQUOTE])) = Return v
  /\ load_api_key_from_env env_file_str
       (Readable (str "key='" ++ v ++ str "'")) = Return v
  /\ (strip v = v -> unquote v = v ->
      load_api_key_from_env env_file_str (Readable (str "key=" ++ v))
      = Return v).
Proof.
  intros Hv Hlb.
  assert (Hquoted : forall q, q = DQUOTE \/ q = "'"%char ->
            load_api_key_from_env env_file_str
              (Readable (str "key=" ++ q :: v ++ [q])) = Return v).
  { intros q Hq.
    assert (Hsq : is_space q = false) by (destruct Hq; subst; reflexivity).
    assert (Hbq : is_linebreak q = false) by (destruct Hq; subst; reflexivity).
    rewrite load_one_line.
    - now apply key_of_quoted_line.
    - discriminate.
    - cbn [str list_ascii_of_string app].
      repeat (constructor; [reflexivity|]).
      constructor; [exact Hbq|]. apply Forall_app. split; [exact Hlb|].
      constructor; [exact Hbq | constructor].
    - change (str "key=" ++ q :: v ++ [q])
        with ("k"%char :: (str "ey=" ++ q :: v) ++ [q]).
      now apply strip_fixed.
    - reflexivity. }
  split; [apply Hquoted; now left|].
  split; [apply (Hquoted "'"%char); now right|].
  intros Hs Hu.
  destruct (exists_last Hv) as (v' & b & Ev).
  assert (Hb : is_space b = false).
  { apply (strip_last v b b); rewrite Hs; [exact Hv|].
    rewrite Ev. apply last_last. }
  rewrite load_one_line.
  - unfold key_of_line.
    change (skipn 4 (str "key=" ++ v)) with v.
    rewrite Hs, Hu. destruct v; [congruence | reflexivity].
  - discriminate.
  - cbn [str list_ascii_of_string app].
    repeat (constructor; [reflexivity|]). exact Hlb.
  - rewrite Ev.
    change (str "key=" ++ v' ++ [b])
      with ("k"%char :: (str "ey=" ++ v') ++ [b]).
    now apply strip_fixed.
  - reflexivity.
Qed.

End EnvFacts.

(** The unit tests of [load_api_key_from_env]. *)
Example load_api_key_examples :
  Env.load_api_key_from_env (str ".env")
    (Env.Readable (str "# This is a comment" ++ [LF] ++ str "key=my_api_key"
                   ++ [LF] ++ str "# Another comment"))
  = Return (str "my_api_key")
  /\ Env.load_api_key_from_env (str ".env")
       (Env.Readable ([LF; LF] ++ str "key=my_api_key" ++ [LF; LF]))
     = Return (str "my_api_key")
  /\ Env.load_api_key_from_env (str ".env")
       (Env.Readable (str "OTHER_VAR=value" ++ [LF] ++ str "ANOTHER_VAR=value2"))
     = Raise (Exn ValueError
                (str "API key not found in .env file (expected format: key=<your_api_key>)"))
  /\ Env.load_api_key_from_env (str ".env") (Env.Readable (str "key="))
     = Raise (Exn ValueError (str "API key value is empty in .env file"))
  /\ Env.load_api_key_from_env (str ".env")
       (Env.Readable (str "key=" ++ [More.DQUOTE; More.DQUOTE]))
     = Raise (Exn ValueError (str "API key value is empty in .env file"))
  /\ Env.load_api_key_from_env (str ".env") Env.NotAFile
     = Raise (Exn ValueError (str "Path is not a file: .env")).
Proof. repeat split; vm_compute; reflexivity. Qed.

Lemma returned_key_is_not_empty_witness :
  str "my_api_key" <> []
  /\ exists content,
      Env.Readable (str "# comment" ++ [LF] ++ str "key='my_api_key'")
      = Env.Readable content.
Proof.
  apply (returned_key_is_not_empty (str ".env")
           (Env.Readable (str "# comment" ++ [LF] ++ str "key='my_api_key'"))
           (str "my_api_key")).
  reflexivity.
Defined.

Lemma key_file_round_trip_witness :
  Env.load_api_key_from_env (str ".env")
    (Env.Readable (str "key=" ++ More.DQUOTE :: str "my api key"
                   ++ [More.DQUOTE]))
  = Return (str "my api key").
Proof.
  destruct (key_file_round_trip (str ".env") (str "my api key")) as (H & _).
  - discriminate.
  - repeat constructor.
  - exact H.
Defined.

(** ** The file service *)

Section FileServiceFacts.

Variable F : Type.
Variable path_str : path -> pystr.
Variable mkdir : path -> F -> result unit * F.
Variable write_text : path -> pystr -> F -> result unit * F.

Local Abbreviation write :=
  (FileSystemService.write_file path_str mkdir write_text).

(** X20.  Whatever the disk raises at a write, the exception that leaves
    [write_file] is the [IOError] of its docstring, with the message
    "Failed to write file P: " followed by the cause; the
    [FileSystemError] of [ensure_directory_exists] never leaves it.  When
    the directory of an output cannot be made, the cause reads
    "Failed to create directory D: " followed by what [mkdir] raised, and
    the file is not written to. *)
Theorem write_file_errors :
  (forall p content f e f',
      write p content f = (Raise e, f') ->
      class_of e = OSError
      /\ isinstance e FileSystemError = false
      /\ exists cause,
           message e
           = str "Failed to write file " ++ path_str p ++ str ": " ++ cause)
  /\ (forall p content f cause f1,
        mkdir (parent p) f = (Raise cause, f1) ->
        write p content f
        = (Raise (Exn OSError
                    (str "Failed to write file " ++ path_str p ++ str ": "
                     ++ str "Failed to create directory "
                     ++ path_str (parent p) ++ str ": " ++ message cause)),
           f1)).
Proof.
  split.
  - intros p content f e f'.
    unfold FileSystemService.write_file,
      FileSystemService.ensure_directory_exists.
    destruct (mkdir (parent p) f) as [[u|e1] f1].
    + destruct (write_text p content f1) as [[u'|e2] f2]; [discriminate|].
      intros [= <- _]. repeat split. now exists (message e2).
    + intros [= <- _]. repeat split. eexists. reflexivity.
  - intros p content f cause f1 E.
    unfold FileSystemService.write_file,
      FileSystemService.ensure_directory_exists.
    rewrite E. reflexivity.
Qed.

End FileServiceFacts.

(** ** Footnote blocks and names *)

Section BlockFacts.

Import Shield.

Lemma collect_continuation_lines (lines more remaining : list pystr) :
  collect_continuation lines = (more, remaining) ->
  Forall (fun l => continuation_line l = true) more.
Proof.
  revert more remaining.
  induction lines as [|l lines IH]; intros more remaining H;
    cbn [collect_continuation] in H.
  - injection H as <- <-. constructor.
  - unfold continuation_line.
    destruct (truthy (strip l)) eqn:Et; cbn [negb] in H;
      [|injection H as <- <-; constructor].
    destruct (footnote_def_match (strip l)) eqn:Ed;
      [injection H as <- <-; constructor|].
    destruct (startswith (str "    ") l || startswith [TAB] l) eqn:Ei;
      [|injection H as <- <-; constructor].
    destruct (collect_continuation lines) as [m r].
    injection H as <- <-. constructor.
    + now rewrite Et, Ed, Ei.
    + now apply (IH m r).
Qed.

Lemma preprocess_loop_blocks (fuel : nat) :
  forall lines processed_lines footnotes : list pystr,
    Forall (fun l : pystr => ~ In LF l) lines ->
    Forall footnote_block footnotes ->
    Forall footnote_block
      (snd (preprocess_loop fuel lines processed_lines footnotes)).
Proof.
  induction fuel as [|fuel IH]; intros lines P0 F0 Hlf HF; [exact HF|].
  destruct lines as [|line rest]; [exact HF|].
  inversion Hlf as [|? ? Hline Hrest]; subst.
  cbn [preprocess_loop].
  destruct (footnote_def_match (strip line)) eqn:Ed.
  - destruct (collect_continuation rest) as [more remaining] eqn:Ec.
    pose proof (collect_continuation_lines _ _ _ Ec) as Hmore.
    apply collect_continuation_app in Ec. subst rest.
    apply Forall_app in Hrest. destruct Hrest as [Hm Hrem].
    apply IH; [exact Hrem|].
    apply Forall_app. split; [exact HF|]. constructor; [|constructor].
    exists line, more. split; [|now split].
    apply split_join; [discriminate | now constructor].
  - now apply IH.
Qed.

(** X22.  Every entry of the table is a footnote block of the content: its
    first line is a footnote definition, and each of its other lines is
    indented by four spaces or a tab, is not blank, and is no definition. *)
Theorem table_holds_footnote_blocks (content : pystr) :
  Forall footnote_block (snd (preprocess_markdown content)).
Proof.
  rewrite preprocess_markdown_facts. cbn [snd].
  apply preprocess_loop_blocks; [apply split_lines_no_LF | constructor].
Qed.

End BlockFacts.

Section NameFacts.

Lemma rfind_absent (ch : ascii) (s : pystr) :
  ~ In ch s -> rfind ch s = None.
Proof.
  induction s as [|a s IH]; intros H; [reflexivity|].
  cbn [rfind]. rewrite IH by (intros Hin; apply H; now right).
  replace (eqc a ch) with false; [reflexivity|].
  symmetry. apply eqc_false. intros ->. apply H. now left.
Qed.

Lemma rfind_last (ch : ascii) (x y : pystr) :
  ~ In ch y -> rfind ch (x ++ ch :: y) = Some (length x).
Proof.
  intros H. induction x as [|a x IH].
  - cbn [app rfind length]. rewrite (rfind_absent _ _ H). now rewrite eqc_refl.
  - cbn [app rfind length]. now rewrite IH.
Qed.

(** X23.  The name of the output when the base name is kept.  For a source
    file named [<base>.md] with a base that is not empty, the stem is the
    base, so the output path under the fall-back of the names is the path
    of the source below the output directory.  A file named [.md] has
    itself as its stem, and goes to [.md.md]. *)
Theorem kept_name_mirrors_source (directory : path) (base : pystr)
  (output_dir_name : pystr) :
  let source_file := directory ++ [base ++ str ".md"] in
  (base <> [] ->
   stem source_file = base
   /\ parent (create_output_path source_file output_dir_name)
      ++ [stem source_file ++ str ".md"]
      = output_dir_name :: source_file)
  /\ (base = [] -> stem source_file ++ str ".md" = str ".md.md").
Proof.
  intros source_file.
  assert (Hname : name source_file = base ++ str ".md")
    by (unfold name, source_file; apply last_last).
  assert (Hrfind : rfind "." (base ++ str ".md") = Some (length base)).
  { change (str ".md") with ("."%char :: str "md").
    apply rfind_last. intros [H|[H|[]]]; discriminate. }
  split.
  - intros Hb.
    assert (Hstem : stem source_file = base).
    { unfold stem. rewrite Hname, Hrfind, length_app.
      change (length (str ".md")) with 3.
      replace (0 <? length base) with true
        by (symmetry; apply Nat.ltb_lt; destruct base; [congruence | simpl; lia]).
      replace (length base <? length base + 3 - 1) with true
        by (symmetry; apply Nat.ltb_lt; lia).
      cbn [andb]. rewrite firstn_app, Nat.sub_diag, firstn_all.
      cbn [firstn]. apply app_nil_r. }
    split; [exact Hstem|]. rewrite Hstem.
    unfold create_output_path, parent, source_file.
    change (output_dir_name :: directory ++ [base ++ str ".md"])
      with ((output_dir_name :: directory) ++ [base ++ str ".md"]).
    now rewrite removelast_last.
  - intros ->. unfold stem. rewrite Hname. reflexivity.
Qed.

End NameFacts.
